(** * clients-service: a shallow embedding of [service.go]

    The service keeps "clients" (name, optional birthday, score) and
    "matches" (score deltas tied to a client) in a MySQL store that it
    reaches through [database/sql], [sqlx] and the [squirrel] statement
    builder.  This development embeds the handlers of
    [internal/clients-service/service/service.go] and states the
    properties of the design document against them.

    Layout:
    - [GoString]  : byte-wise string order and [sort.Strings];
    - [GoTime]    : [int64], [time.Time], [time.Unix], [Time.UnixNano];
    - [Squirrel]  : the statement builder ([Select], [Where], [ToSql], ...);
    - [Pb]        : request and response messages;
    - [Storage]   : the tables, the driver and transactions;
    - [Service]   : the handlers themselves;
    - the theorems, one group per handler. *)

From Stdlib Require Import ZArith List String Ascii Bool Lia.
From Stdlib Require Import Permutation Sorted Mergesort Orders.
Import ListNotations.

Local Open Scope list_scope.
Local Open Scope string_scope.

(* ===================================================================== *)
(** ** Go strings: comparison and [sort.Strings] *)
(* ===================================================================== *)

Module GoString.

(** Go compares strings byte by byte; [String.leb] is that order on
    [string], whose characters are bytes. *)
Module StringOrder <: TotalLeBool.
Definition t := string.
Definition leb (a b : string) : bool := String.leb a b.
Definition leb_total : forall a b, leb a b = true \/ leb b a = true :=
  String.leb_total.
End StringOrder.

Module StringSort := Sort StringOrder.

(** [sort.Strings(items)]: sorts in increasing order.  Equal strings are
    indistinguishable, so the sorted result does not depend on the
    algorithm; merge sort stands for Go's pattern-defeating quicksort. *)
Definition Strings (items : list string) : list string :=
  StringSort.sort items.

Definition le (a b : string) : Prop := String.leb a b = true.
Definition lt (a b : string) : Prop := String.ltb a b = true.

(** [strings.Join]. *)
Fixpoint Join (elems : list string) (sep : string) : string :=
  match elems with
  | [] => ""
  | [e] => e
  | e :: rest => e ++ sep ++ Join rest sep
  end.

(** [strings.Count(s, "?")]: occurrences of the placeholder character. *)
Fixpoint count_placeholders (s : string) : nat :=
  match s with
  | EmptyString => 0
  | String c rest =>
      (if Ascii.eqb c "?"%char then 1 else 0) + count_placeholders rest
  end.

End GoString.

(* ===================================================================== *)
(** ** Outcomes of a Go call *)
(* ===================================================================== *)

(** Errors that the handlers can hand back to their caller. *)
Inductive error : Type :=
| ErrDriver                       (* the connection or the engine failed the call *)
| ErrSyntax                       (* MySQL error 1064: the statement does not parse *)
| ErrArgCount (want got : nat)    (* database/sql: expected [want] arguments, got [got] *)
| ErrTxDone                       (* sql.ErrTxDone *)
| ErrScan                         (* a column could not be converted to its destination *)
| ErrBuilder                      (* squirrel refused to assemble the statement *)
| ErrUnsupported                  (* a statement outside the modelled SQL fragment *).

(** A Go call either returns or panics at run time. *)
Inductive outcome (A : Type) : Type :=
| Returned (a : A)
| Panicked.                       (* runtime error: index out of range *)
Arguments Returned {A} a.
Arguments Panicked {A}.

(** What a fallible call returns: [(x, nil)] or [(_, err)]. *)
Inductive result (A : Type) : Type :=
| Ok (a : A)
| Err (e : error).
Arguments Ok {A} a.
Arguments Err {A} e.

Definition is_ok {A} (r : result A) : bool :=
  match r with Ok _ => true | Err _ => false end.

(* ===================================================================== *)
(** ** Go integers and times *)
(* ===================================================================== *)

Module GoTime.

Local Open Scope Z_scope.

(** The value an [int64] holds after an arithmetic result [z]. *)
Definition wrap64 (z : Z) : Z := (z + 2 ^ 63) mod 2 ^ 64 - 2 ^ 63.

(** [time.Time] without its location: seconds since January 1 of year 1
    (the [ext] field of a wall-clock time) and nanoseconds within the
    second. *)
Record Time := mkTime { ext : Z; nsec : Z }.

(** [time.Time{}], also the [Time] field of an invalid [sql.NullTime]. *)
Definition zeroTime : Time := mkTime 0 0.

Definition unixToInternal : Z :=
  (1969 * 365 + 1969 / 4 - 1969 / 100 + 1969 / 400) * 86400.
Definition internalToUnix : Z := - unixToInternal.

(** [time.Unix(sec, nsec)]; Go's [/] truncates, hence [Z.quot]. *)
Definition Unix (sec nsec : Z) : Time :=
  let '(sec, nsec) :=
    if (nsec <? 0) || (1000000000 <=? nsec) then
      let n := Z.quot nsec 1000000000 in
      let sec := wrap64 (sec + n) in
      let nsec := nsec - n * 1000000000 in
      if nsec <? 0 then (wrap64 (sec - 1), nsec + 1000000000)
      else (sec, nsec)
    else (sec, nsec) in
  mkTime (wrap64 (sec + unixToInternal)) nsec.

(** [t.UnixNano()]:
    [(t.sec() + internalToUnix) * 1e9 + int64(t.nsec())] in [int64]. *)
Definition UnixNano (t : Time) : Z :=
  wrap64 (wrap64 (wrap64 (ext t + internalToUnix) * 1000000000) + nsec t).

(** [sql.NullTime] and [sql.NullInt64]. *)
Record NullTime := mkNullTime { nt_Time : Time; nt_Valid : bool }.
Record NullInt64 := mkNullInt64 { ni_Int64 : Z; ni_Valid : bool }.

End GoTime.

(** An [interface{}] argument bound to a statement, and the content of a
    non-NULL cell. *)
Inductive value : Type :=
| VString (s : string)
| VInt64 (z : Z)
| VTime (t : GoTime.Time).

(** A cell of a result row: [None] is SQL NULL. *)
Definition cell : Type := option value.

(* ===================================================================== *)
(** ** SQL fragments that the service sends *)
(* ===================================================================== *)

(** The driver ships a statement as text and MySQL parses it back.  The
    model keeps the parsed form and derives the text from it, so that the
    engine below can run a statement and the theorems can still speak
    about the very characters the Go code holds in [q]. *)
Module Sql.

Inductive cmp_op : Type := OpEq | OpLt | OpLe | OpGt | OpGe.

Definition cmp_op_text (op : cmp_op) : string :=
  match op with
  | OpEq => "=" | OpLt => "<" | OpLe => "<=" | OpGt => ">" | OpGe => ">="
  end.

(** One conjunct of a WHERE clause, as handed to [Where]. *)
Inductive cond : Type :=
| CColumn (col : string)                   (* "id": a bare column, no placeholder *)
| CLike (col : string)                     (* "name LIKE ?" *)
| CCmp (col : string) (op : cmp_op)        (* "score >= ?" *)
| CBetween (col : string)                  (* "score BETWEEN ? AND ?" *)
| CIn (col : string) (placeholders : string)  (* Sprintf("id IN (%s)", placeholders) *).

Definition cond_text (c : cond) : string :=
  match c with
  | CColumn col => col
  | CLike col => col ++ " LIKE ?"
  | CCmp col op => col ++ " " ++ cmp_op_text op ++ " ?"
  | CBetween col => col ++ " BETWEEN ? AND ?"
  | CIn col ps => col ++ " IN (" ++ ps ++ ")"
  end.

(** The statements that the handlers write out as string literals. *)
Inductive literal : Type :=
| InsertMatch | UpdateScore | DeleteById | DeleteAll.

Definition literal_text (l : literal) : string :=
  match l with
  | InsertMatch => "INSERT INTO client_matches (client_id, score) VALUES (?, ?)"
  | UpdateScore => "UPDATE clients SET score = score + ? WHERE id = ?"
  | DeleteById => "DELETE FROM clients WHERE id = ?"
  | DeleteAll => "DELETE FROM clients"
  end.

End Sql.

(* ===================================================================== *)
(** ** github.com/Masterminds/squirrel *)
(* ===================================================================== *)

Module Squirrel.

Import GoString.

(** A [part]: predicate text (here with its parse) and bound arguments. *)
Record part := mkPart { pred : Sql.cond; part_args : list value }.

Record SelectBuilder := mkSelect
  { sel_Columns : list string;
    sel_From : option string;
    sel_WhereParts : list part;
    sel_OrderByParts : list string }.

Record InsertBuilder := mkInsert
  { ins_Into : string;
    ins_Columns : list string;
    ins_Values : list (list value) }.

Definition Select (columns : list string) : SelectBuilder :=
  mkSelect columns None [] [].

Definition From (from : string) (b : SelectBuilder) : SelectBuilder :=
  mkSelect (sel_Columns b) (Some from) (sel_WhereParts b) (sel_OrderByParts b).

(** [b.Where(pred, args...)]: an empty predicate is ignored. *)
Definition Where (p : Sql.cond) (args : list value) (b : SelectBuilder)
  : SelectBuilder :=
  if String.eqb (Sql.cond_text p) "" then b
  else mkSelect (sel_Columns b) (sel_From b)
                (sel_WhereParts b ++ [mkPart p args])%list (sel_OrderByParts b).

Definition OrderBy (orderBys : list string) (b : SelectBuilder) : SelectBuilder :=
  mkSelect (sel_Columns b) (sel_From b) (sel_WhereParts b)
           (sel_OrderByParts b ++ orderBys)%list.

Definition Insert (into : string) : InsertBuilder := mkInsert into [] [].

Definition Columns (columns : list string) (b : InsertBuilder) : InsertBuilder :=
  mkInsert (ins_Into b) (ins_Columns b ++ columns)%list (ins_Values b).

Definition Values (values : list value) (b : InsertBuilder) : InsertBuilder :=
  mkInsert (ins_Into b) (ins_Columns b) (ins_Values b ++ [values])%list.

(** [sq.Placeholders(count)]: "?,?,...,?", empty when [count < 1]. *)
Fixpoint Placeholders (count : nat) : string :=
  match count with
  | O => ""
  | S O => "?"
  | S n => "?," ++ Placeholders n
  end.

(** [appendToSql(parts, w, sep, args)]: a part with empty text is skipped;
    the separator is written before every part but the one at index 0. *)
Fixpoint appendToSql (i : nat) (parts : list (string * list value))
  (sep : string) : string * list value :=
  match parts with
  | [] => ("", [])
  | (partSql, partArgs) :: rest =>
      let (sql, args) := appendToSql (S i) rest sep in
      if String.eqb partSql "" then (sql, args)
      else ((if Nat.eqb i 0 then "" else sep) ++ partSql ++ sql,
            (partArgs ++ args)%list)
  end.

Definition column_parts (cols : list string) : list (string * list value) :=
  map (fun c => (c, [])) cols.

Definition where_parts (ps : list part) : list (string * list value) :=
  map (fun p => (Sql.cond_text (pred p), part_args p)) ps.

(** The text and the arguments that [selectData.toSqlRaw] assembles. *)
Definition select_sql (b : SelectBuilder) : string * list value :=
  let (cols, a1) := appendToSql 0 (column_parts (sel_Columns b)) ", " in
  let (from, a2) :=
    match sel_From b with
    | Some f => let (s, a) := appendToSql 0 [(f, [])] "" in (" FROM " ++ s, a)
    | None => ("", [])
    end in
  let (wh, a3) :=
    match sel_WhereParts b with
    | [] => ("", [])
    | ps => let (s, a) := appendToSql 0 (where_parts ps) " AND " in
            (" WHERE " ++ s, a)
    end in
  let (ob, a4) :=
    match sel_OrderByParts b with
    | [] => ("", [])
    | os => let (s, a) := appendToSql 0 (column_parts os) ", " in
            (" ORDER BY " ++ s, a)
    end in
  ("SELECT " ++ cols ++ from ++ wh ++ ob, (a1 ++ a2 ++ a3 ++ a4)%list).

(** The text and the arguments that [insertData.ToSql] assembles. *)
Definition insert_sql (b : InsertBuilder) : string * list value :=
  let cols :=
    match ins_Columns b with
    | [] => ""
    | cs => "(" ++ Join cs "," ++ ") "
    end in
  let row_text (row : list value) :=
    "(" ++ Join (map (fun _ => "?") row) "," ++ ")" in
  ("INSERT INTO " ++ ins_Into b ++ " " ++ cols ++ "VALUES "
     ++ Join (map row_text (ins_Values b)) ",",
   List.concat (ins_Values b)).

(** What travels to the driver as [q]. *)
Inductive statement : Type :=
| QSelect (b : SelectBuilder)
| QInsert (b : InsertBuilder)
| QLiteral (l : Sql.literal).

(** The characters of [q]. *)
Definition sql_text (q : statement) : string :=
  match q with
  | QSelect b => fst (select_sql b)
  | QInsert b => fst (insert_sql b)
  | QLiteral l => Sql.literal_text l
  end.

(** [SelectBuilder.ToSql] and [InsertBuilder.ToSql]. *)
Definition ToSql (b : SelectBuilder) : result (statement * list value) :=
  match sel_Columns b with
  | [] => Err ErrBuilder
  | _ => Ok (QSelect b, snd (select_sql b))
  end.

Definition InsertToSql (b : InsertBuilder) : result (statement * list value) :=
  if String.eqb (ins_Into b) "" then Err ErrBuilder
  else match ins_Values b with
       | [] => Err ErrBuilder
       | _ => Ok (QInsert b, snd (insert_sql b))
       end.

End Squirrel.

(* ===================================================================== *)
(** ** protos/pb: the messages of the service *)
(* ===================================================================== *)

Module Pb.

Module NewClientRequest.
Record t := mk { Name : string; Birthday : Z; Score : Z }.
End NewClientRequest.

Module NewClientResponse.
Record t := mk { Id : string }.
End NewClientResponse.

(** Modelled from the spec: the range filter message of [protos/pb] and
    its [Where(column, builder)] method are not part of the service file.
    Section 4.1 of the design gives a filter as an operator with one
    bound value, or [between] with exactly two, and the clause that each
    contributes: [col = ?], [col < ?], [col <= ?], [col > ?], [col >= ?]
    and [col BETWEEN ? AND ?]. *)
Module Filter.
Inductive t : Type :=
| Equal (v : value)
| LessThan (v : value)
| LessOrEqual (v : value)
| GreaterThan (v : value)
| GreaterOrEqual (v : value)
| Between (lo hi : value).

Definition Where (col : string) (f : t) (rq : Squirrel.SelectBuilder)
  : Squirrel.SelectBuilder :=
  match f with
  | Equal v => Squirrel.Where (Sql.CCmp col Sql.OpEq) [v] rq
  | LessThan v => Squirrel.Where (Sql.CCmp col Sql.OpLt) [v] rq
  | LessOrEqual v => Squirrel.Where (Sql.CCmp col Sql.OpLe) [v] rq
  | GreaterThan v => Squirrel.Where (Sql.CCmp col Sql.OpGt) [v] rq
  | GreaterOrEqual v => Squirrel.Where (Sql.CCmp col Sql.OpGe) [v] rq
  | Between lo hi => Squirrel.Where (Sql.CBetween col) [lo; hi] rq
  end.
End Filter.

(** Optional fields are pointers in Go: [nil] is [None]. *)
Module QueryClientsRequest.
Record t := mk
  { Id : option string;
    Name : option string;
    Birthday : option Filter.t;
    Score : option Filter.t;
    CreatedAt : option Filter.t }.
End QueryClientsRequest.

Module QueryClientsResponse.
Record t := mk { Ids : list string }.
End QueryClientsResponse.

Module GetClientsRequest.
Record t := mk { Ids : list string }.
End GetClientsRequest.

Module Client.
Record t := mk
  { Id : string; Name : string; Birthday : Z; Score : Z; CreatedAt : Z }.
End Client.

Module GetClientsResponse.
Record t := mk { Clients : list Client.t }.
End GetClientsResponse.

Module NewMatchRequest.
Record t := mk { ClientId : string; Score : Z }.
End NewMatchRequest.

Module NewMatchResponse.
Record t := mk { Id : Z }.
End NewMatchResponse.

Module DeleteClientRequest.
Record t := mk { Id : string }.
End DeleteClientRequest.

Module SortRequest.
Record t := mk { Items : list string; RemoveDuplicates : bool }.
End SortRequest.

Module SortResponse.
Record t := mk { Items : list string }.
End SortResponse.

End Pb.

(* ===================================================================== *)
(** ** The store: tables, the MySQL engine, the driver *)
(* ===================================================================== *)

(** The storage engine is outside the service.  It is modelled for the
    statements that the service can send: two tables, parameter binding
    by position, the checks that make a call fail ([ErrSyntax],
    [ErrArgCount]) and a schedule of injected faults, one entry per round
    trip to the server. *)
Module Storage.

Import GoString GoTime.
Local Open Scope Z_scope.

(** Modelled from the spec: the schema is not part of the service file;
    section 6 gives the layout
    [clients(id PK, name, birthday NULLABLE, score, created_at)].
    [c_initial] is a ghost column: the score the row was created with.  No
    statement reads it. *)
Record ClientRow := mkClientRow
  { c_id : string;
    c_name : string;
    c_birthday : option Time;
    c_score : Z;
    c_created_at : option Time;
    c_initial : Z }.

(** Modelled from the spec: section 6 gives the layout
    [client_matches(id PK auto-increment, client_id, score)]. *)
Record MatchRow := mkMatchRow
  { m_id : Z; m_client_id : string; m_score : Z }.

Record Tables := mkTables
  { clients : list ClientRow; client_matches : list MatchRow }.

(** The committed tables, the auto-increment counter of [client_matches]
    (not transactional in InnoDB), the server clock, and the fault
    schedule: [true] makes the next round trip fail. *)
Record World := mkWorld
  { tables : Tables;
    auto_increment : Z;
    clock : Time;
    faults : list bool }.

Definition set_tables (t : Tables) (w : World) : World :=
  mkWorld t (auto_increment w) (clock w) (faults w).

(** One round trip: consumes the head of the schedule. *)
Definition round_trip (w : World) : bool * World :=
  match faults w with
  | [] => (false, w)
  | f :: rest => (f, mkWorld (tables w) (auto_increment w) (clock w) rest)
  end.

(** *** Reading a row *)

Definition column (r : ClientRow) (col : string) : option cell :=
  if String.eqb col "id" then Some (Some (VString (c_id r)))
  else if String.eqb col "name" then Some (Some (VString (c_name r)))
  else if String.eqb col "birthday" then Some (option_map VTime (c_birthday r))
  else if String.eqb col "score" then Some (Some (VInt64 (c_score r)))
  else if String.eqb col "created_at" then
         Some (option_map VTime (c_created_at r))
  else None.

Definition Time_compare (a b : Time) : comparison :=
  match ext a ?= ext b with
  | Eq => nsec a ?= nsec b
  | c => c
  end.

(** Values of different kinds are not compared by the model. *)
Definition value_compare (a b : value) : option comparison :=
  match a, b with
  | VString x, VString y => Some (String.compare x y)
  | VInt64 x, VInt64 y => Some (x ?= y)
  | VTime x, VTime y => Some (Time_compare x y)
  | _, _ => None
  end.

Definition op_holds (op : Sql.cmp_op) (c : comparison) : bool :=
  match op, c with
  | Sql.OpEq, Eq => true
  | Sql.OpLt, Lt => true
  | Sql.OpLe, (Lt | Eq) => true
  | Sql.OpGt, Gt => true
  | Sql.OpGe, (Gt | Eq) => true
  | _, _ => false
  end.

Definition value_eqb (a b : value) : bool :=
  match value_compare a b with Some Eq => true | _ => false end.

(** [LIKE] with its two wildcards, [%] and [_]. *)
Fixpoint like (pattern s : string) : bool :=
  match pattern with
  | EmptyString => match s with EmptyString => true | _ => false end
  | String p pattern' =>
      if Ascii.eqb p "%"%char then
        (fix skip (s : string) : bool :=
           like pattern' s
           || match s with
              | EmptyString => false
              | String _ s' => skip s'
              end) s
      else
        match s with
        | EmptyString => false
        | String c s' =>
            (Ascii.eqb p "_"%char || Ascii.eqb p c) && like pattern' s'
        end
  end.

(** A column used as a condition: true when its value is not zero; text
    counts through the digits it starts with. *)
Fixpoint leading_digits_nonzero (s : string) : bool :=
  match s with
  | EmptyString => false
  | String c rest =>
      if (48 <=? Z.of_nat (nat_of_ascii c)) && (Z.of_nat (nat_of_ascii c) <=? 57)
      then negb (Ascii.eqb c "0"%char) || leading_digits_nonzero rest
      else false
  end.

Definition truthy (c : cell) : bool :=
  match c with
  | None => false
  | Some (VInt64 z) => negb (z =? 0)
  | Some (VString s) => leading_digits_nonzero s
  | Some (VTime _) => true
  end.

(** One conjunct on one row, with the arguments bound to its
    placeholders.  [None]: outside the modelled fragment (unknown column,
    values of different kinds).  A NULL cell satisfies no comparison. *)
Definition eval_cond (c : Sql.cond) (args : list value) (r : ClientRow)
  : option bool :=
  match c with
  | Sql.CColumn col => option_map truthy (column r col)
  | Sql.CLike col =>
      match args, column r col with
      | [VString pattern], Some (Some (VString s)) => Some (like pattern s)
      | [_], Some None => Some false
      | _, _ => None
      end
  | Sql.CCmp col op =>
      match args, column r col with
      | [v], Some (Some x) => option_map (op_holds op) (value_compare x v)
      | [_], Some None => Some false
      | _, _ => None
      end
  | Sql.CBetween col =>
      match args, column r col with
      | [lo; hi], Some (Some x) =>
          match value_compare lo x, value_compare x hi with
          | Some c1, Some c2 =>
              Some (op_holds Sql.OpLe c1 && op_holds Sql.OpLe c2)
          | _, _ => None
          end
      | [_; _], Some None => Some false
      | _, _ => None
      end
  | Sql.CIn col _ =>
      match column r col with
      | Some (Some x) => Some (existsb (value_eqb x) args)
      | Some None => Some false
      | None => None
      end
  end.

(** Placeholders are bound by position: each conjunct takes as many
    arguments as its text has placeholders. *)
Fixpoint eval_where (conds : list Sql.cond) (args : list value)
  (r : ClientRow) : option bool :=
  match conds with
  | [] => Some true
  | c :: rest =>
      let n := count_placeholders (Sql.cond_text c) in
      match eval_cond c (firstn n args) r, eval_where rest (skipn n args) r with
      | Some b1, Some b2 => Some (b1 && b2)
      | _, _ => None
      end
  end.

Fixpoint filter_rows (conds : list Sql.cond) (args : list value)
  (rows : list ClientRow) : option (list ClientRow) :=
  match rows with
  | [] => Some []
  | r :: rest =>
      match eval_where conds args r, filter_rows conds args rest with
      | Some b, Some kept => Some (if b then r :: kept else kept)
      | _, _ => None
      end
  end.

(** *** ORDER BY *)

(** [a] comes before [b] under [ORDER BY score DESC]. *)
Module ScoreDesc <: TotalLeBool.
Definition t := ClientRow.
Definition leb (a b : ClientRow) : bool := c_score b <=? c_score a.
Definition leb_total (a b : ClientRow) : leb a b = true \/ leb b a = true :=
  match Z.le_ge_cases (c_score b) (c_score a) with
  | or_introl H => or_introl (proj2 (Z.leb_le _ _) H)
  | or_intror H => or_intror (proj2 (Z.leb_le _ _) H)
  end.
End ScoreDesc.

Module ScoreSort := Sort ScoreDesc.

(** Rows with equal scores keep the order the engine happens to produce;
    the model takes the one of a merge sort over the table order. *)
Definition order_rows (orderBys : list string) (rows : list ClientRow)
  : option (list ClientRow) :=
  match orderBys with
  | [] => Some rows
  | [o] => if String.eqb o "score DESC" then Some (ScoreSort.sort rows)
           else None
  | _ => None
  end.

(** *** SELECT *)

Definition is_clients_table (from : string) : bool :=
  String.eqb from "clients" || String.eqb from "`clients`".

Fixpoint project (cols : list string) (r : ClientRow) : option (list cell) :=
  match cols with
  | [] => Some []
  | c :: rest =>
      match column r c, project rest r with
      | Some x, Some xs => Some (x :: xs)
      | _, _ => None
      end
  end.

Fixpoint project_all (cols : list string) (rows : list ClientRow)
  : option (list (list cell)) :=
  match rows with
  | [] => Some []
  | r :: rest =>
      match project cols r, project_all cols rest with
      | Some x, Some xs => Some (x :: xs)
      | _, _ => None
      end
  end.

Definition conds_of (b : Squirrel.SelectBuilder) : list Sql.cond :=
  map Squirrel.pred (Squirrel.sel_WhereParts b).

Definition run_select (b : Squirrel.SelectBuilder) (args : list value)
  (t : Tables) : result (list (list cell)) :=
  match Squirrel.sel_From b with
  | Some from =>
      if is_clients_table from then
        match filter_rows (conds_of b) args (clients t) with
        | Some kept =>
            match order_rows (Squirrel.sel_OrderByParts b) kept with
            | Some sorted =>
                match project_all (Squirrel.sel_Columns b) sorted with
                | Some rows => Ok rows
                | None => Err ErrUnsupported
                end
            | None => Err ErrUnsupported
            end
        | None => Err ErrUnsupported
        end
      else Err ErrUnsupported
  | None => Err ErrUnsupported
  end.

(** *** INSERT INTO clients *)

Fixpoint lookup (col : string) (cols : list string) (vals : list value)
  : option value :=
  match cols, vals with
  | c :: cs, v :: vs => if String.eqb c col then Some v else lookup col cs vs
  | _, _ => None
  end.

Definition insertable (col : string) : bool :=
  String.eqb col "id" || String.eqb col "name"
  || String.eqb col "birthday" || String.eqb col "score".

(** A column left out of the statement takes its default: NULL for
    [birthday]. *)
Definition birthday_cell (v : option value) : option (option Time) :=
  match v with
  | None => Some None
  | Some (VTime t) => Some (Some t)
  | Some _ => None
  end.

(** Modelled from the spec: [created_at] is set by the storage layer at
    insert time (section 3), here from the server clock, and [id] is the
    primary key (section 6), so a second row with the same [id] is
    refused. *)
Definition insert_client (cols : list string) (vals : list value)
  (now : Time) (t : Tables) : result Tables :=
  if negb (forallb insertable cols) then Err ErrUnsupported
  else
    match lookup "id" cols vals, lookup "name" cols vals,
          lookup "score" cols vals, birthday_cell (lookup "birthday" cols vals)
    with
    | Some (VString id), Some (VString name), Some (VInt64 score), Some birthday =>
        if existsb (fun r => String.eqb (c_id r) id) (clients t)
        then Err ErrDriver
        else Ok (mkTables
                   (clients t
                      ++ [mkClientRow id name birthday score (Some now) score])%list
                   (client_matches t))
    | _, _, _, _ => Err ErrDriver
    end.

Definition run_insert (b : Squirrel.InsertBuilder) (args : list value)
  (now : Time) (t : Tables) : result Tables :=
  if String.eqb (Squirrel.ins_Into b) "clients" then
    match Squirrel.ins_Values b with
    | [_] => insert_client (Squirrel.ins_Columns b) args now t
    | _ => Err ErrUnsupported
    end
  else Err ErrUnsupported.

(** *** The literal statements *)

(** [sql.Result]. *)
Record ExecResult := mkExecResult { LastInsertId : Z; RowsAffected : Z }.

Definition add_score (id : string) (delta : Z) (r : ClientRow) : ClientRow :=
  if String.eqb (c_id r) id
  then mkClientRow (c_id r) (c_name r) (c_birthday r) (c_score r + delta)
                   (c_created_at r) (c_initial r)
  else r.

Definition has_id (id : string) (r : ClientRow) : bool := String.eqb (c_id r) id.

Definition count_rows (f : ClientRow -> bool) (rows : list ClientRow) : Z :=
  Z.of_nat (List.length (filter f rows)).

(** The score column is taken wide enough for every sum. *)
Definition run_literal (l : Sql.literal) (args : list value) (t : Tables)
  (next : Z) : result (Tables * Z * ExecResult) :=
  match l, args with
  | Sql.InsertMatch, [VString client_id; VInt64 score] =>
      let id := next + 1 in
      Ok (mkTables (clients t)
                   (client_matches t ++ [mkMatchRow id client_id score])%list,
          id, mkExecResult id 1)
  | Sql.UpdateScore, [VInt64 delta; VString id] =>
      Ok (mkTables (map (add_score id delta) (clients t)) (client_matches t),
          next, mkExecResult 0 (count_rows (has_id id) (clients t)))
  | Sql.DeleteById, [VString id] =>
      Ok (mkTables (filter (fun r => negb (has_id id r)) (clients t))
                   (client_matches t),
          next, mkExecResult 0 (count_rows (has_id id) (clients t)))
  | Sql.DeleteAll, [] =>
      Ok (mkTables [] (client_matches t),
          next, mkExecResult 0 (Z.of_nat (List.length (clients t))))
  | _, _ => Err ErrDriver
  end.

(** *** What the server and the driver check before a statement runs *)

(** MySQL's grammar is [expr IN (value, ...)] with at least one value:
    an empty list does not parse. *)
Definition cond_parses (c : Sql.cond) : bool :=
  match c with
  | Sql.CIn _ ps =>
      negb (String.eqb ps "")
      && String.eqb ps (Squirrel.Placeholders (count_placeholders ps))
  | _ => true
  end.

Definition parses (q : Squirrel.statement) : bool :=
  match q with
  | Squirrel.QSelect b => forallb cond_parses (conds_of b)
  | _ => true
  end.

(** [database/sql] compares the number of arguments with the number of
    placeholders of the prepared statement. *)
Definition check (q : Squirrel.statement) (args : list value) : result unit :=
  if negb (parses q) then Err ErrSyntax
  else
    let want := count_placeholders (Squirrel.sql_text q) in
    if Nat.eqb want (List.length args) then Ok tt
    else Err (ErrArgCount want (List.length args)).

Definition apply_statement (q : Squirrel.statement) (args : list value)
  (t : Tables) (next : Z) (now : Time) : result (Tables * Z * ExecResult) :=
  match q with
  | Squirrel.QSelect b =>
      match run_select b args t with
      | Ok _ => Ok (t, next, mkExecResult 0 0)
      | Err e => Err e
      end
  | Squirrel.QInsert b =>
      match run_insert b args now t with
      | Ok t' => Ok (t', next, mkExecResult 0 1)
      | Err e => Err e
      end
  | Squirrel.QLiteral l => run_literal l args t next
  end.

(** *** Calls on [*sqlx.DB] *)

(** A call reads and changes the world and may fail; a failure leaves the
    world as the call left it. *)
Definition M (A : Type) : Type := World -> result A * World.

Definition ret {A} (a : A) : M A := fun w => (Ok a, w).

(** [x, err := m; if err != nil { return nil, err }; k x]. *)
Definition bind {A B} (m : M A) (k : A -> M B) : M B :=
  fun w =>
    match m w with
    | (Ok a, w1) => k a w1
    | (Err e, w1) => (Err e, w1)
    end.

Definition lift {A} (r : result A) : M A := fun w => (r, w).

(** [db.ExecContext(ctx, q, args...)]. *)
Definition ExecContext (q : Squirrel.statement) (args : list value)
  : M ExecResult :=
  fun w =>
    let (failed, w1) := round_trip w in
    if failed then (Err ErrDriver, w1)
    else
      match check q args with
      | Err e => (Err e, w1)
      | Ok _ =>
          match apply_statement q args (tables w1) (auto_increment w1) (clock w1)
          with
          | Err e => (Err e, w1)
          | Ok (t, next, res) =>
              (Ok res, mkWorld t next (clock w1) (faults w1))
          end
      end.

(** The rows that [db.SelectContext(ctx, dest, q, args...)] receives. *)
Definition query_rows (q : Squirrel.statement) (args : list value)
  : M (list (list cell)) :=
  fun w =>
    let (failed, w1) := round_trip w in
    if failed then (Err ErrDriver, w1)
    else
      match check q args with
      | Err e => (Err e, w1)
      | Ok _ =>
          match q with
          | Squirrel.QSelect b => (run_select b args (tables w1), w1)
          | _ => (Err ErrUnsupported, w1)
          end
      end.

(** Scanning every row into its destination. *)
Fixpoint scan_all {A} (scan : list cell -> result A) (rows : list (list cell))
  : result (list A) :=
  match rows with
  | [] => Ok []
  | r :: rest =>
      match scan r, scan_all scan rest with
      | Ok a, Ok l => Ok (a :: l)
      | Err e, _ => Err e
      | _, Err e => Err e
      end
  end.

Definition SelectContext {A} (scan : list cell -> result A)
  (q : Squirrel.statement) (args : list value) : M (list A) :=
  bind (query_rows q args) (fun rows => lift (scan_all scan rows)).

Definition scan_string (row : list cell) : result string :=
  match row with
  | [Some (VString s)] => Ok s
  | _ => Err ErrScan
  end.

(** A NULL leaves the zero [Time] behind and [Valid] false. *)
Definition scan_NullTime (c : cell) : result NullTime :=
  match c with
  | None => Ok (mkNullTime zeroTime false)
  | Some (VTime t) => Ok (mkNullTime t true)
  | Some _ => Err ErrScan
  end.

Definition scan_NullInt64 (c : cell) : result NullInt64 :=
  match c with
  | None => Ok (mkNullInt64 0 false)
  | Some (VInt64 z) => Ok (mkNullInt64 z true)
  | Some _ => Err ErrScan
  end.

(** *** Transactions: [*sqlx.Tx] *)

(** The statements of a transaction work on a private copy of the tables,
    published by [Commit].  [tx_done] is the flag that [database/sql] sets
    on the first [Commit] or [Rollback].  Calls run one at a time here, so
    the copy taken at BEGIN stays the committed state until the
    transaction ends. *)
Record Tx := mkTx { tx_tables : Tables; tx_done : bool }.

Definition BeginTxx (w : World) : result Tx * World :=
  let (failed, w1) := round_trip w in
  if failed then (Err ErrDriver, w1)
  else (Ok (mkTx (tables w1) false), w1).

(** [tx.Exec(q, args...)]. *)
Definition Exec (q : Squirrel.statement) (args : list value) (tx : Tx)
  (w : World) : result ExecResult * Tx * World :=
  if tx_done tx then (Err ErrTxDone, tx, w)
  else
    let (failed, w1) := round_trip w in
    if failed then (Err ErrDriver, tx, w1)
    else
      match check q args with
      | Err e => (Err e, tx, w1)
      | Ok _ =>
          match apply_statement q args (tx_tables tx) (auto_increment w1)
                                (clock w1)
          with
          | Err e => (Err e, tx, w1)
          | Ok (t, next, res) =>
              (Ok res, mkTx t false,
               mkWorld (tables w1) next (clock w1) (faults w1))
          end
      end.

(** [tx.Rollback()]: the private copy is dropped, also when the round
    trip fails (the server then drops it with the session). *)
Definition Rollback (tx : Tx) (w : World) : result unit * Tx * World :=
  if tx_done tx then (Err ErrTxDone, tx, w)
  else
    let (failed, w1) := round_trip w in
    (if failed then Err ErrDriver else Ok tt, mkTx (tx_tables tx) true, w1).

(** [tx.Commit()]: publishes the private copy unless the round trip
    fails; the transaction is over either way. *)
Definition Commit (tx : Tx) (w : World) : result unit * Tx * World :=
  if tx_done tx then (Err ErrTxDone, tx, w)
  else
    let (failed, w1) := round_trip w in
    if failed then (Err ErrDriver, mkTx (tx_tables tx) true, w1)
    else (Ok tt, mkTx (tx_tables tx) true, set_tables (tx_tables tx) w1).

End Storage.

(* ===================================================================== *)
(** ** internal/clients-service/service: the handlers *)
(* ===================================================================== *)

Module Service.

Import GoString GoTime Squirrel Storage.
Local Open Scope Z_scope.

Notation "x <- m ;; k" := (bind m (fun x => k))
  (at level 61, m at next level, right associativity).
Notation "' pat <- m ;; k" :=
  (bind m (fun x => match x with pat => k end))
  (at level 61, pat pattern, m at next level, right associativity).

(** *** NewClient *)

(** The [cols], [vals] slices that [NewClient] fills (lines 54 to 62). *)
Definition NewClient_columns (id : string) (req : Pb.NewClientRequest.t)
  : list string * list value :=
  let cols := [] in
  let vals := [] in
  let '(cols, vals) := (cols ++ ["id"], vals ++ [VString id])%list in
  let '(cols, vals) :=
    (cols ++ ["name"], vals ++ [VString (Pb.NewClientRequest.Name req)])%list in
  let '(cols, vals) :=
    if negb (Pb.NewClientRequest.Birthday req =? 0) then
      (cols ++ ["birthday"],
       vals ++ [VTime (Unix 0 (Pb.NewClientRequest.Birthday req))])%list
    else (cols, vals) in
  let '(cols, vals) :=
    (cols ++ ["score"], vals ++ [VInt64 (Pb.NewClientRequest.Score req)])%list in
  (cols, vals).

(** [func (s *Service) NewClient(ctx, req)].  [id] is the value that
    [utils.SecureID().String()] returned. *)
Definition NewClient (id : string) (req : Pb.NewClientRequest.t)
  : M Pb.NewClientResponse.t :=
  let '(cols, vals) := NewClient_columns id req in
  ' (q, args) <- lift (InsertToSql (Values vals (Columns cols (Insert "clients")))) ;;
  _ <- ExecContext q args ;;
  ret (Pb.NewClientResponse.mk id).

(** *** QueryClients *)

(** The builder [rq] at line 97. *)
Definition QueryClients_builder (req : Pb.QueryClientsRequest.t)
  : SelectBuilder :=
  let rq := From "clients" (Select ["id"]) in
  let rq :=
    match Pb.QueryClientsRequest.Id req with
    | Some v => Where (Sql.CColumn "id") [VString v] rq
    | None => rq
    end in
  let rq :=
    match Pb.QueryClientsRequest.Name req with
    | Some v => Where (Sql.CLike "name") [VString v] rq
    | None => rq
    end in
  let rq :=
    match Pb.QueryClientsRequest.Birthday req with
    | Some f => Pb.Filter.Where "birthday" f rq
    | None => rq
    end in
  let rq :=
    match Pb.QueryClientsRequest.Score req with
    | Some f => Pb.Filter.Where "score" f rq
    | None => rq
    end in
  let rq :=
    match Pb.QueryClientsRequest.CreatedAt req with
    | Some f => Pb.Filter.Where "created_at" f rq
    | None => rq
    end in
  OrderBy ["score DESC"] rq.

(** [func (s *Service) QueryClients(ctx, req)]. *)
Definition QueryClients (req : Pb.QueryClientsRequest.t)
  : M Pb.QueryClientsResponse.t :=
  ' (q, args) <- lift (ToSql (QueryClients_builder req)) ;;
  ids <- SelectContext scan_string q args ;;
  ret (Pb.QueryClientsResponse.mk ids).

(** *** GetClients *)

(** The anonymous struct of [rawclients]. *)
Record rawclient := mkRawclient
  { ID : string;
    Name : string;
    Birthday : NullTime;
    Score : NullInt64;
    CreatedAt : NullTime }.

Definition scan_rawclient (row : list cell) : result rawclient :=
  match row with
  | [Some (VString id); Some (VString name); birthday; score; created_at] =>
      match scan_NullTime birthday, scan_NullInt64 score,
            scan_NullTime created_at with
      | Ok b, Ok s, Ok c => Ok (mkRawclient id name b s c)
      | _, _, _ => Err ErrScan
      end
  | _ => Err ErrScan
  end.

(** The element appended to [resp.Clients] for a scanned row. *)
Definition to_Client (v : rawclient) : Pb.Client.t :=
  Pb.Client.mk (ID v) (Name v)
               (UnixNano (nt_Time (Birthday v)))
               (ni_Int64 (Score v))
               (UnixNano (nt_Time (CreatedAt v))).

(** The builder of lines 114 to 119. *)
Definition GetClients_builder (ids : list string) : SelectBuilder :=
  let ifids := map VString ids in
  Where (Sql.CIn "id" (Placeholders (List.length ifids))) ifids
        (From "`clients`"
              (Select ["id"; "name"; "birthday"; "score"; "created_at"])).

(** [func (s *Service) GetClients(ctx, req)]. *)
Definition GetClients (req : Pb.GetClientsRequest.t)
  : M Pb.GetClientsResponse.t :=
  ' (q, args) <-
    lift (ToSql (GetClients_builder (Pb.GetClientsRequest.Ids req))) ;;
  rawclients <- SelectContext scan_rawclient q args ;;
  ret (Pb.GetClientsResponse.mk (map to_Client rawclients)).

(** *** NewMatch *)

(** Lines 155 to 166: what runs between [defer tx.Commit()] and the
    deferred call. *)
Definition NewMatch_body (req : Pb.NewMatchRequest.t) (tx : Tx) (w : World)
  : result Pb.NewMatchResponse.t * Tx * World :=
  match Exec (QLiteral Sql.InsertMatch)
             [VString (Pb.NewMatchRequest.ClientId req);
              VInt64 (Pb.NewMatchRequest.Score req)] tx w
  with
  | (Err e, tx1, w1) =>
      let '(_, tx2, w2) := Rollback tx1 w1 in
      (Err e, tx2, w2)
  | (Ok res, tx1, w1) =>
      let matchId := LastInsertId res in
      match Exec (QLiteral Sql.UpdateScore)
                 [VInt64 (Pb.NewMatchRequest.Score req);
                  VString (Pb.NewMatchRequest.ClientId req)] tx1 w1
      with
      | (Err e, tx2, w2) =>
          let '(_, tx3, w3) := Rollback tx2 w2 in
          (Err e, tx3, w3)
      | (Ok _, tx2, w2) => (Ok (Pb.NewMatchResponse.mk matchId), tx2, w2)
      end
  end.

(** [func (s *Service) NewMatch(ctx, req)].  The deferred [tx.Commit()]
    runs after the body on every path; what it returns is dropped. *)
Definition NewMatch (req : Pb.NewMatchRequest.t) : M Pb.NewMatchResponse.t :=
  fun w =>
    match BeginTxx w with
    | (Err e, w1) => (Err e, w1)
    | (Ok tx, w1) =>
        let '(r, tx', w2) := NewMatch_body req tx w1 in
        let '(_, _, w3) := Commit tx' w2 in
        (r, w3)
    end.

(** *** DeleteClient, DeleteAllClients *)

Definition DeleteClient (req : Pb.DeleteClientRequest.t) : M unit :=
  _ <- ExecContext (QLiteral Sql.DeleteById)
                   [VString (Pb.DeleteClientRequest.Id req)] ;;
  ret tt.

Definition DeleteAllClients : M unit :=
  _ <- ExecContext (QLiteral Sql.DeleteAll) [] ;;
  ret tt.

(** *** Sort *)

(** Body of the [for _, item := range items] loop, on the state
    [(uniqueItems, pivot)]. *)
Definition dedup_step (st : list string * string) (item : string)
  : list string * string :=
  let (uniqueItems, pivot) := st in
  if negb (String.eqb item pivot) then ((uniqueItems ++ [item])%list, item)
  else st.

(** [items[0]]: indexing an empty slice panics. *)
Definition index0 (items : list string) : outcome string :=
  match items with
  | [] => Panicked
  | x :: _ => Returned x
  end.

(** [func (s *Service) Sort(ctx, req)]; its [error] is always [nil]. *)
Definition Sort (req : Pb.SortRequest.t) : outcome Pb.SortResponse.t :=
  let items := Strings (Pb.SortRequest.Items req) in
  if negb (Pb.SortRequest.RemoveDuplicates req)
  then Returned (Pb.SortResponse.mk items)
  else
    match index0 items with
    | Panicked => Panicked
    | Returned pivot =>
        let uniqueItems := [pivot] in
        Returned (Pb.SortResponse.mk
                    (fst (fold_left dedup_step items (uniqueItems, pivot))))
    end.

End Service.

(* ===================================================================== *)
(** ** Vocabulary of the statements *)
(* ===================================================================== *)

Module Spec.

Import GoString GoTime Squirrel Storage Service.
Local Open Scope Z_scope.

(** Runs of equal neighbours collapsed, by recursion on the list; the
    loop of [Sort] is compared with it. *)
Fixpoint collapse (pivot : string) (items : list string) : list string :=
  match items with
  | [] => []
  | x :: rest =>
      if String.eqb x pivot then collapse pivot rest
      else x :: collapse x rest
  end.

(** The sum of the deltas of the match rows that reference [id]. *)
Fixpoint sum_deltas (id : string) (ms : list MatchRow) : Z :=
  match ms with
  | [] => 0
  | m :: rest =>
      (if String.eqb (m_client_id m) id then m_score m else 0)
      + sum_deltas id rest
  end.

(** The score invariant of the design, on a state of the tables. *)
Definition score_invariant (t : Tables) : Prop :=
  forall r, In r (clients t) ->
    c_score r = c_initial r + sum_deltas (c_id r) (client_matches t).

(** No match row references [id]. *)
Definition unreferenced (id : string) (t : Tables) : Prop :=
  forall m, In m (client_matches t) -> m_client_id m <> id.

(** The next round trip to the server goes through. *)
Definition next_ok (w : World) : Prop := hd false (faults w) = false.

(** Both effects of a recorded match, applied to the tables. *)
Definition recorded (req : Pb.NewMatchRequest.t) (id : Z) (t : Tables) : Tables :=
  mkTables
    (map (add_score (Pb.NewMatchRequest.ClientId req)
                    (Pb.NewMatchRequest.Score req)) (clients t))
    (client_matches t
       ++ [mkMatchRow id (Pb.NewMatchRequest.ClientId req)
                      (Pb.NewMatchRequest.Score req)])%list.

(** The row is among the requested identifiers. *)
Definition requested (ids : list string) (r : ClientRow) : bool :=
  existsb (String.eqb (c_id r)) ids.

(** What [GetClients] makes of a stored row. *)
Definition null_time (t : option Time) : Time :=
  match t with Some t => t | None => zeroTime end.

Definition decode (r : ClientRow) : Pb.Client.t :=
  Pb.Client.mk (c_id r) (c_name r)
               (UnixNano (null_time (c_birthday r)))
               (c_score r)
               (UnixNano (null_time (c_created_at r))).

(** What [NewClient] stores for the [Birthday] of a request. *)
Definition stored_birthday (birthday : Z) : option Time :=
  if birthday =? 0 then None else Some (Unix 0 birthday).

(** The [n]-th coming round trip fails. *)
Definition nth_fault (n : nat) (w : World) : bool := nth n (faults w) false.

(** A returned client with its score raised by [delta]. *)
Definition bump (delta : Z) (c : Pb.Client.t) : Pb.Client.t :=
  Pb.Client.mk (Pb.Client.Id c) (Pb.Client.Name c) (Pb.Client.Birthday c)
               (Pb.Client.Score c + delta) (Pb.Client.CreatedAt c).

(** The filter fields that a request populates, and the values that the
    design promises to bind for them, in the order of the fields. *)
Definition filter_values (f : option Pb.Filter.t) : list value :=
  match f with
  | None => []
  | Some (Pb.Filter.Between lo hi) => [lo; hi]
  | Some (Pb.Filter.Equal v) | Some (Pb.Filter.LessThan v)
  | Some (Pb.Filter.LessOrEqual v) | Some (Pb.Filter.GreaterThan v)
  | Some (Pb.Filter.GreaterOrEqual v) => [v]
  end.

Definition string_values (f : option string) : list value :=
  match f with None => [] | Some v => [VString v] end.

Definition promised_values (req : Pb.QueryClientsRequest.t) : list value :=
  (string_values (Pb.QueryClientsRequest.Id req)
   ++ string_values (Pb.QueryClientsRequest.Name req)
   ++ filter_values (Pb.QueryClientsRequest.Birthday req)
   ++ filter_values (Pb.QueryClientsRequest.Score req)
   ++ filter_values (Pb.QueryClientsRequest.CreatedAt req))%list.

(** Every conjunct has one placeholder per argument bound to it: then the
    n-th argument of the list is the one of the n-th placeholder. *)
Definition well_bound (b : SelectBuilder) : Prop :=
  Forall (fun p => count_placeholders (Sql.cond_text (pred p))
                   = List.length (part_args p))
         (sel_WhereParts b).

(** The calls of a client of the service, for runs of several calls. *)
Inductive call : Type :=
| CallNewClient (id : string) (req : Pb.NewClientRequest.t)
| CallQueryClients (req : Pb.QueryClientsRequest.t)
| CallGetClients (req : Pb.GetClientsRequest.t)
| CallNewMatch (req : Pb.NewMatchRequest.t)
| CallDeleteClient (req : Pb.DeleteClientRequest.t)
| CallDeleteAllClients.

Definition step (c : call) (w : World) : World :=
  match c with
  | CallNewClient id req => snd (NewClient id req w)
  | CallQueryClients req => snd (QueryClients req w)
  | CallGetClients req => snd (GetClients req w)
  | CallNewMatch req => snd (NewMatch req w)
  | CallDeleteClient req => snd (DeleteClient req w)
  | CallDeleteAllClients => snd (DeleteAllClients w)
  end.

(** The identifier generator never hands out an identifier that a match
    row already references. *)
Definition fresh_id (c : call) (w : World) : Prop :=
  match c with
  | CallNewClient id _ => unreferenced id (tables w)
  | _ => True
  end.

Fixpoint run (cs : list call) (w : World) : World :=
  match cs with
  | [] => w
  | c :: rest => run rest (step c w)
  end.

Fixpoint fresh_ids (cs : list call) (w : World) : Prop :=
  match cs with
  | [] => True
  | c :: rest => fresh_id c w /\ fresh_ids rest (step c w)
  end.

End Spec.

(* ===================================================================== *)
(** ** Theorems: strings and [Sort] *)
(* ===================================================================== *)

Import GoString GoTime Squirrel Storage Service Spec.

Lemma ascii_compare_refl (a : ascii) : Ascii.compare a a = Eq.
Proof. unfold Ascii.compare. apply N.compare_refl. Qed.

Lemma ascii_compare_lt_trans (a b c : ascii) :
  Ascii.compare a b = Lt -> Ascii.compare b c = Lt -> Ascii.compare a c = Lt.
Proof.
  unfold Ascii.compare. rewrite !N.compare_lt_iff. apply N.lt_trans.
Qed.

Lemma string_compare_refl (a : string) : String.compare a a = Eq.
Proof.
  induction a as [|x a IH]; simpl; [reflexivity|].
  now rewrite ascii_compare_refl.
Qed.

Lemma string_compare_lt_trans :
  forall a b c, String.compare a b = Lt -> String.compare b c = Lt ->
                String.compare a c = Lt.
Proof.
  induction a as [|x a IH]; intros [|y b] [|z c]; simpl; try discriminate; auto.
  destruct (Ascii.compare x y) eqn:Exy; try discriminate;
    destruct (Ascii.compare y z) eqn:Eyz; try discriminate; intros Hab Hbc.
  - apply Ascii.compare_eq_iff in Exy, Eyz. subst.
    rewrite ascii_compare_refl. eauto.
  - apply Ascii.compare_eq_iff in Exy. subst. now rewrite Eyz.
  - apply Ascii.compare_eq_iff in Eyz. subst. now rewrite Exy.
  - now rewrite (ascii_compare_lt_trans _ _ _ Exy Eyz).
Qed.

Lemma le_cases (a b : string) : le a b <-> lt a b \/ a = b.
Proof.
  unfold le, lt, String.leb, String.ltb. split.
  - destruct (String.compare a b) eqn:E; try discriminate; auto.
    right. now apply String.compare_eq_iff.
  - intros [H | ->].
    + now destruct (String.compare a b).
    + now rewrite string_compare_refl.
Qed.

Lemma lt_compare (a b : string) : lt a b <-> String.compare a b = Lt.
Proof.
  unfold lt, String.ltb. destruct (String.compare a b); split; congruence.
Qed.

Lemma lt_trans (a b c : string) : lt a b -> lt b c -> lt a c.
Proof. rewrite !lt_compare. apply string_compare_lt_trans. Qed.

Lemma lt_irrefl (a : string) : ~ lt a a.
Proof. rewrite lt_compare, string_compare_refl. discriminate. Qed.

Lemma le_trans (a b c : string) : le a b -> le b c -> le a c.
Proof.
  rewrite !le_cases. intros [Hab | ->] [Hbc | ->]; auto.
  left. eapply lt_trans; eassumption.
Qed.

Lemma lt_le_trans (a b c : string) : lt a b -> le b c -> lt a c.
Proof.
  rewrite le_cases. intros Hab [Hbc | ->]; auto. eapply lt_trans; eassumption.
Qed.

Lemma Strings_sorted (items : list string) :
  StronglySorted le (Strings items).
Proof.
  apply StringSort.StronglySorted_sort.
  intros a b c. apply le_trans.
Qed.

Lemma Strings_permutation (items : list string) :
  Permutation items (Strings items).
Proof. apply StringSort.Permuted_sort. Qed.

(** An increasing list is determined by its members: whatever algorithm
    [sort.Strings] runs, it returns [Strings items]. *)
Lemma sorted_permutation_unique (l1 : list string) :
  forall l2, StronglySorted le l1 -> StronglySorted le l2 ->
             Permutation l1 l2 -> l1 = l2.
Proof.
  induction l1 as [|a l1 IH]; intros l2 H1 H2 P.
  - now apply Permutation_nil in P.
  - destruct l2 as [|b l2];
      [now apply Permutation_sym, Permutation_nil in P|].
    apply StronglySorted_inv in H1 as [H1 Ha].
    apply StronglySorted_inv in H2 as [H2 Hb].
    rewrite Forall_forall in Ha, Hb.
    assert (Hab : a = b).
    { assert (Hin1 : In a (b :: l2))
        by (eapply Permutation_in; [exact P | now left]).
      assert (Hin2 : In b (a :: l1))
        by (eapply Permutation_in; [apply Permutation_sym, P | now left]).
      destruct Hin1 as [<- | Hin1]; [reflexivity|].
      destruct Hin2 as [-> | Hin2]; [reflexivity|].
      apply String.leb_antisym; [apply Ha, Hin2 | apply Hb, Hin1]. }
    subst b. f_equal. apply IH; try assumption.
    eapply Permutation_cons_inv, P.
Qed.

Lemma Strings_unique (items sorted : list string) :
  StronglySorted le sorted -> Permutation items sorted ->
  sorted = Strings items.
Proof.
  intros Hs Hp. apply sorted_permutation_unique;
    [assumption | apply Strings_sorted|].
  eapply Permutation_trans;
    [apply Permutation_sym, Hp | apply Strings_permutation].
Qed.

(** The loop, started with [pivot] as the last collected item, collects
    what [collapse] computes. *)
Lemma dedup_loop (items : list string) :
  forall u pivot,
    fst (fold_left dedup_step items ((u ++ [pivot])%list, pivot))
    = (u ++ pivot :: collapse pivot items)%list.
Proof.
  induction items as [|x items IH]; intros u pivot; simpl; [reflexivity|].
  destruct (String.eqb x pivot) eqn:E; simpl.
  - apply IH.
  - rewrite (IH (u ++ [pivot])%list x). now rewrite <- app_assoc.
Qed.

Lemma collapse_subset (items : list string) :
  forall pivot x, In x (collapse pivot items) -> In x items.
Proof.
  induction items as [|y items IH]; intros pivot x; simpl; [tauto|].
  destruct (String.eqb y pivot).
  - intros H. right. eapply IH, H.
  - intros [-> | H]; [now left | right; eapply IH, H].
Qed.

Lemma collapse_complete (items : list string) :
  forall pivot x, In x items -> x = pivot \/ In x (collapse pivot items).
Proof.
  induction items as [|y items IH]; intros pivot x; simpl; [tauto|].
  destruct (String.eqb y pivot) eqn:E.
  - apply String.eqb_eq in E. subst y. intros [-> | H]; auto.
  - intros [-> | H]; [right; now left|].
    destruct (IH y x H) as [-> | H']; right; [now left | now right].
Qed.

(** On an increasing list every collapsed item is above the pivot, so the
    result increases strictly. *)
Lemma collapse_strictly_sorted (items : list string) :
  forall pivot, StronglySorted le (pivot :: items) ->
                StronglySorted lt (pivot :: collapse pivot items).
Proof.
  induction items as [|x items IH]; intros pivot Hs; simpl.
  - repeat constructor.
  - apply StronglySorted_inv in Hs as [Hs Hall].
    inversion Hall as [|? ? Hpx Hrest]; subst.
    destruct (String.eqb x pivot) eqn:E.
    + apply IH. constructor; [|assumption].
      now apply StronglySorted_inv in Hs as [Hs _].
    + apply String.eqb_neq in E.
      assert (Hlt : lt pivot x).
      { apply le_cases in Hpx as [H | H]; [assumption | congruence]. }
      specialize (IH x Hs). constructor; [assumption|].
      constructor; [assumption|].
      apply StronglySorted_inv in IH as [_ IH].
      rewrite Forall_forall in IH |- *. intros y Hy.
      eapply lt_trans; eauto.
Qed.

Lemma strictly_sorted_NoDup (l : list string) :
  StronglySorted lt l -> NoDup l.
Proof.
  induction 1 as [|a l Hs IH Hall]; constructor; [|assumption].
  intros Hin. rewrite Forall_forall in Hall.
  exact (lt_irrefl a (Hall a Hin)).
Qed.

Lemma strictly_sorted_sorted (l : list string) :
  StronglySorted lt l -> StronglySorted le l.
Proof.
  induction 1 as [|a l Hs IH Hall]; constructor; [assumption|].
  eapply Forall_impl; [|exact Hall].
  intros b Hb. apply le_cases. now left.
Qed.

Lemma Strings_nil_iff (items : list string) : Strings items = [] <-> items = [].
Proof.
  split.
  - intros H. pose proof (Strings_permutation items) as P. rewrite H in P.
    now apply Permutation_sym, Permutation_nil in P.
  - intros ->. reflexivity.
Qed.

(** The two runs of the design document. *)
Example Sort_keeps_repeats :
  Sort (Pb.SortRequest.mk ["b"; "a"; "b"] false)
  = Returned (Pb.SortResponse.mk ["a"; "b"; "b"]).
Proof. reflexivity. Qed.

Example Sort_removes_repeats :
  Sort (Pb.SortRequest.mk ["b"; "a"; "b"] true)
  = Returned (Pb.SortResponse.mk ["a"; "b"]).
Proof. reflexivity. Qed.

(** C4.  [Sort] on the empty list with [RemoveDuplicates] set does not
    return the empty list: [items[0]] indexes the empty slice and the
    handler panics.  Without the flag the empty list is returned. *)
Theorem Sort_empty_remove_duplicates_panics :
  Sort (Pb.SortRequest.mk [] true) = Panicked
  /\ Sort (Pb.SortRequest.mk [] false) = Returned (Pb.SortResponse.mk []).
Proof. split; reflexivity. Qed.

(** C7.  Whenever [Sort] returns, the items are in increasing byte order;
    without [RemoveDuplicates] they are a permutation of the input, with
    it they have no repeats and the same members as the input.  [Sort]
    fails to return in exactly one case: the empty list with
    [RemoveDuplicates] set, where it panics. *)
Theorem Sort_sorted_unless_empty (items : list string) (rd : bool) :
  match Sort (Pb.SortRequest.mk items rd) with
  | Returned resp =>
      StronglySorted le (Pb.SortResponse.Items resp)
      /\ (if rd
          then NoDup (Pb.SortResponse.Items resp)
               /\ (forall x, In x (Pb.SortResponse.Items resp) <-> In x items)
          else Permutation items (Pb.SortResponse.Items resp))
  | Panicked => items = [] /\ rd = true
  end.
Proof.
  unfold Sort. simpl. destruct rd; simpl.
  - pose proof (Strings_sorted items) as Hs.
    pose proof (Strings_permutation items) as Hp.
    destruct (Strings items) as [|pivot rest] eqn:E; cbn [index0].
    + split; [|reflexivity]. now apply Strings_nil_iff.
    + change [pivot] with ([] ++ [pivot])%list.
      rewrite (dedup_loop (pivot :: rest) [] pivot).
      cbn [app collapse Pb.SortResponse.Items]. rewrite String.eqb_refl.
      pose proof (collapse_strictly_sorted rest pivot Hs) as Hc.
      split; [now apply strictly_sorted_sorted|].
      split; [now apply strictly_sorted_NoDup|].
      intros x. split.
      * intros [-> | Hin].
        -- eapply Permutation_in; [apply Permutation_sym, Hp | now left].
        -- eapply Permutation_in; [apply Permutation_sym, Hp|].
           right. eapply collapse_subset, Hin.
      * intros Hin. apply (Permutation_in _ Hp) in Hin.
        destruct Hin as [-> | Hin]; [now left|].
        destruct (collapse_complete rest pivot x Hin) as [-> | H];
          [now left | now right].
  - split; [apply Strings_sorted | apply Strings_permutation].
Qed.

(* ===================================================================== *)
(** ** Theorems: timestamps *)
(* ===================================================================== *)

Section Timestamps.

Local Open Scope Z_scope.







End Timestamps.

(* ===================================================================== *)
(** ** Theorems: the statements that the builders produce *)
(* ===================================================================== *)

Lemma count_placeholders_app (a b : string) :
  count_placeholders (a ++ b) = (count_placeholders a + count_placeholders b)%nat.
Proof.
  induction a as [|c a IH]; simpl; [reflexivity|]. rewrite IH. lia.
Qed.

Lemma count_placeholders_Placeholders (n : nat) :
  count_placeholders (Placeholders n) = n.
Proof.
  induction n as [|[|n] IH]; try reflexivity.
  change (Placeholders (S (S n))) with ("?," ++ Placeholders (S n)).
  rewrite count_placeholders_app, IH. reflexivity.
Qed.

Lemma Placeholders_nonempty (n : nat) :
  String.eqb (Placeholders (S n)) "" = false.
Proof. destruct n; reflexivity. Qed.

(** The texts that the model attaches to the parsed conjuncts are the
    strings of the Go source. *)
Example cond_text_id : Sql.cond_text (Sql.CColumn "id") = "id".
Proof. reflexivity. Qed.

Example cond_text_name : Sql.cond_text (Sql.CLike "name") = "name LIKE ?".
Proof. reflexivity. Qed.

Example cond_text_in (n : nat) :
  Sql.cond_text (Sql.CIn "id" (Placeholders n))
  = "id IN (" ++ Placeholders n ++ ")".
Proof. reflexivity. Qed.

Ltac each_filter f :=
  destruct f as [[?|?|?|?|?|? ?]|].

(** Whatever the request populates, [QueryClients] binds the promised
    values, one per populated field and two for a [between], in the order
    of the fields. *)
Lemma QueryClients_binds_promised_values (req : Pb.QueryClientsRequest.t) :
  ToSql (QueryClients_builder req)
  = Ok (QSelect (QueryClients_builder req), promised_values req).
Proof.
  destruct req as [id name birthday score created].
  destruct id, name; each_filter birthday; each_filter score;
    each_filter created; reflexivity.
Qed.

(** Without the [id] filter every bound value has its placeholder. *)
Lemma QueryClients_well_bound_without_id (req : Pb.QueryClientsRequest.t) :
  Pb.QueryClientsRequest.Id req = None ->
  well_bound (QueryClients_builder req)
  /\ count_placeholders (sql_text (QSelect (QueryClients_builder req)))
     = List.length (promised_values req).
Proof.
  destruct req as [id name birthday score created]. simpl. intros ->.
  destruct name; each_filter birthday; each_filter score;
    each_filter created; (split; [repeat constructor | reflexivity]).
Qed.

(** With the [id] filter the text always has one placeholder less than
    there are bound values. *)
Lemma QueryClients_short_with_id (req : Pb.QueryClientsRequest.t) (v : string) :
  Pb.QueryClientsRequest.Id req = Some v ->
  S (count_placeholders (sql_text (QSelect (QueryClients_builder req))))
  = List.length (promised_values req).
Proof.
  destruct req as [id name birthday score created]. simpl. intros ->.
  destruct name; each_filter birthday; each_filter score;
    each_filter created; reflexivity.
Qed.

(* ===================================================================== *)
(** ** Theorems: the driver *)
(* ===================================================================== *)

Lemma round_trip_ok (w : World) : next_ok w -> fst (round_trip w) = false.
Proof.
  unfold next_ok, round_trip. destruct (faults w) as [|f rest]; simpl; auto.
Qed.

Lemma round_trip_tables (w : World) : tables (snd (round_trip w)) = tables w.
Proof. unfold round_trip. destruct (faults w); reflexivity. Qed.

Lemma round_trip_clock (w : World) : clock (snd (round_trip w)) = clock w.
Proof. unfold round_trip. destruct (faults w); reflexivity. Qed.

(** Reading leaves the world as the round trip left it. *)
Lemma query_rows_world (q : statement) (args : list value) (w : World) :
  snd (query_rows q args w) = snd (round_trip w).
Proof.
  unfold query_rows. destruct (round_trip w) as [[] w1]; simpl; auto.
  destruct (check q args); simpl; auto. destruct q; reflexivity.
Qed.

Lemma SelectContext_world {A} (scan : list cell -> result A)
  (q : statement) (args : list value) (w : World) :
  snd (SelectContext scan q args w) = snd (round_trip w).
Proof.
  unfold SelectContext, bind, lift.
  pose proof (query_rows_world q args w) as H.
  destruct (query_rows q args w) as [[rows|e] w1]; simpl in *; auto.
Qed.

Lemma QueryClients_parses (req : Pb.QueryClientsRequest.t) :
  parses (QSelect (QueryClients_builder req)) = true.
Proof.
  destruct req as [id name birthday score created].
  destruct id, name; each_filter birthday; each_filter score;
    each_filter created; reflexivity.
Qed.

(** A request that populates [id] never reaches the engine: the driver
    refuses the call because the text lacks a placeholder. *)
Lemma QueryClients_with_id_fails
  (req : Pb.QueryClientsRequest.t) (v : string) (w : World) :
  Pb.QueryClientsRequest.Id req = Some v -> next_ok w ->
  exists n, fst (QueryClients req w) = Err (ErrArgCount n (S n)).
Proof.
  intros Hid Hok.
  exists (count_placeholders (sql_text (QSelect (QueryClients_builder req)))).
  unfold QueryClients, bind, lift.
  rewrite QueryClients_binds_promised_values.
  unfold SelectContext, bind, query_rows.
  pose proof (round_trip_ok w Hok) as Hrt.
  destruct (round_trip w) as [failed w1]. simpl in Hrt. subst failed.
  unfold check. rewrite QueryClients_parses. cbn [negb].
  rewrite <- (QueryClients_short_with_id req v Hid).
  set (n := count_placeholders _).
  replace (Nat.eqb n (S n)) with false; [reflexivity|].
  symmetry. apply Nat.eqb_neq. lia.
Qed.

(** The sibling filter on [name] carries its placeholder. *)
Example QueryClients_name_filter_text :
  sql_text (QSelect (QueryClients_builder
      (Pb.QueryClientsRequest.mk None (Some "a%") None None None)))
  = "SELECT id FROM clients WHERE name LIKE ? ORDER BY score DESC".
Proof. reflexivity. Qed.

(** C2.  For the request that populates only [id], [QueryClients] builds
    a statement without any placeholder and still binds one value: the
    bound values do not line up with placeholders of the text, and the
    driver refuses the call. *)
Theorem QueryClients_id_filter_has_no_placeholder :
  let req := Pb.QueryClientsRequest.mk (Some "abc") None None None None in
  ToSql (QueryClients_builder req)
  = Ok (QSelect (QueryClients_builder req), [VString "abc"])
  /\ sql_text (QSelect (QueryClients_builder req))
     = "SELECT id FROM clients WHERE id ORDER BY score DESC"
  /\ count_placeholders (sql_text (QSelect (QueryClients_builder req))) = 0%nat
  /\ ~ well_bound (QueryClients_builder req)
  /\ forall t next now,
       fst (QueryClients req (mkWorld t next now [])) = Err (ErrArgCount 0 1).
Proof.
  cbv zeta. repeat split.
  intros H. inversion H as [|p ps Hp _]; subst. discriminate Hp.
Qed.

(* ===================================================================== *)
(** ** Theorems: [GetClients] *)
(* ===================================================================== *)

Lemma GetClients_statement (ids : list string) :
  ToSql (GetClients_builder ids)
  = Ok (QSelect (GetClients_builder ids), map VString ids).
Proof.
  unfold GetClients_builder, ToSql. cbn. now rewrite !app_nil_r.
Qed.

Lemma string_app_nil_r (s : string) : s ++ "" = s.
Proof. induction s as [|c s IH]; simpl; congruence. Qed.

Lemma GetClients_text (ids : list string) :
  sql_text (QSelect (GetClients_builder ids))
  = "SELECT id, name, birthday, score, created_at FROM `clients` WHERE id IN ("
      ++ Placeholders (List.length ids) ++ ")".
Proof.
  unfold GetClients_builder. cbn. rewrite length_map.
  now rewrite !string_app_nil_r.
Qed.

Lemma value_eqb_string (a b : string) :
  value_eqb (VString a) (VString b) = String.eqb a b.
Proof.
  unfold value_eqb. simpl. destruct (String.eqb a b) eqn:E.
  - apply String.eqb_eq in E. subst. now rewrite string_compare_refl.
  - apply String.eqb_neq in E.
    destruct (String.compare a b) eqn:C; auto.
    now apply String.compare_eq_iff in C.
Qed.

Lemma requested_value_eqb (ids : list string) (r : ClientRow) :
  existsb (value_eqb (VString (c_id r))) (map VString ids) = requested ids r.
Proof.
  unfold requested. induction ids as [|i ids IH]; simpl; [reflexivity|].
  now rewrite value_eqb_string, IH.
Qed.

Lemma requested_one (id : string) (r : ClientRow) :
  requested [id] r = String.eqb (c_id r) id.
Proof. unfold requested. simpl. apply orb_false_r. Qed.

Lemma filter_rows_in (ids : list string) (rows : list ClientRow) :
  filter_rows [Sql.CIn "id" (Placeholders (List.length ids))]
              (map VString ids) rows
  = Some (filter (requested ids) rows).
Proof.
  induction rows as [|r rows IH]; [reflexivity|].
  cbn [filter_rows filter]. rewrite IH.
  cbn [eval_where]. 
  replace (count_placeholders
             (Sql.cond_text (Sql.CIn "id" (Placeholders (List.length ids)))))
    with (List.length (map VString ids)).
  2:{ cbn. rewrite count_placeholders_app, count_placeholders_Placeholders.
      rewrite length_map. simpl. lia. }
  rewrite firstn_all. cbn [eval_cond].
  change (column r "id") with (Some (Some (VString (c_id r)))). cbn iota.
  rewrite requested_value_eqb, andb_true_r. reflexivity.
Qed.

(** The cells that the engine sends for a row, and their scan. *)
Lemma project_all_client_columns (rows : list ClientRow) :
  project_all ["id"; "name"; "birthday"; "score"; "created_at"] rows
  = Some (map (fun r => [Some (VString (c_id r)); Some (VString (c_name r));
                         option_map VTime (c_birthday r);
                         Some (VInt64 (c_score r));
                         option_map VTime (c_created_at r)]) rows).
Proof.
  induction rows as [|r rows IH]; [reflexivity|].
  cbn [project_all map]. rewrite IH. reflexivity.
Qed.

Lemma scan_decode (r : ClientRow) :
  match scan_rawclient [Some (VString (c_id r)); Some (VString (c_name r));
                        option_map VTime (c_birthday r);
                        Some (VInt64 (c_score r));
                        option_map VTime (c_created_at r)] with
  | Ok v => to_Client v = decode r
  | Err _ => False
  end.
Proof.
  destruct r as [id name [b|] score [c|] init]; reflexivity.
Qed.

Lemma scan_all_decode (rows : list ClientRow) :
  exists raws,
    scan_all scan_rawclient
      (map (fun r => [Some (VString (c_id r)); Some (VString (c_name r));
                      option_map VTime (c_birthday r);
                      Some (VInt64 (c_score r));
                      option_map VTime (c_created_at r)]) rows)
    = Ok raws
    /\ map to_Client raws = map decode rows.
Proof.
  induction rows as [|r rows (raws & Hs & Hm)].
  - exists []. split; reflexivity.
  - pose proof (scan_decode r) as Hr.
    cbn [map scan_all]. rewrite Hs.
    destruct (scan_rawclient _) as [v|e]; [|contradiction].
    exists (v :: raws). split; [reflexivity|]. simpl. congruence.
Qed.

Lemma GetClients_parses (n : nat) (ids : list string) :
  List.length ids = S n ->
  check (QSelect (GetClients_builder ids)) (map VString ids) = Ok tt.
Proof.
  intros Hn. unfold check.
  replace (parses (QSelect (GetClients_builder ids))) with true.
  2:{ unfold GetClients_builder. cbn. rewrite length_map, Hn.
      rewrite Placeholders_nonempty, count_placeholders_Placeholders.
      now rewrite String.eqb_refl. }
  cbn [negb]. rewrite GetClients_text, !count_placeholders_app.
  rewrite count_placeholders_Placeholders, length_map. cbn.
  rewrite Nat.add_0_r, Nat.eqb_refl. reflexivity.
Qed.

(** [GetClients] with at least one identifier, when the round trip goes
    through: the requested rows that exist, in table order, each decoded
    by [decode]; nothing is written. *)
Lemma GetClients_spec (ids : list string) (w : World) :
  ids <> [] -> next_ok w ->
  GetClients (Pb.GetClientsRequest.mk ids) w
  = (Ok (Pb.GetClientsResponse.mk
           (map decode (filter (requested ids) (clients (tables w))))),
     snd (round_trip w)).
Proof.
  intros Hne Hok.
  destruct ids as [|i ids]; [congruence|].
  unfold GetClients, bind, lift. cbn [Pb.GetClientsRequest.Ids].
  rewrite GetClients_statement.
  unfold SelectContext, bind, lift, query_rows.
  pose proof (round_trip_ok w Hok) as Hrt.
  pose proof (round_trip_tables w) as Ht.
  destruct (round_trip w) as [failed w1]. simpl in Hrt, Ht. subst failed.
  rewrite (GetClients_parses (List.length ids)) by reflexivity.
  unfold run_select.
  change (sel_From (GetClients_builder (i :: ids))) with (Some "`clients`").
  change (is_clients_table "`clients`") with true. cbn iota.
  change (conds_of (GetClients_builder (i :: ids)))
    with [Sql.CIn "id" (Placeholders (List.length (map VString (i :: ids))))].
  rewrite length_map, filter_rows_in.
  change (sel_OrderByParts (GetClients_builder (i :: ids))) with (@nil string).
  cbn [order_rows].
  change (sel_Columns (GetClients_builder (i :: ids)))
    with ["id"; "name"; "birthday"; "score"; "created_at"].
  rewrite project_all_client_columns, Ht.
  destruct (scan_all_decode (filter (requested (i :: ids)) (clients (tables w))))
    as (raws & Hs & Hm).
  change (is_clients_table "`clients`") with true. cbn iota.
  rewrite Hs. unfold ret. simpl. now rewrite Hm.
Qed.

(** C5.  [GetClients] with no identifier builds [... WHERE id IN ()],
    which MySQL does not parse: the call returns an error in every world,
    the syntax error when the round trip itself goes through. *)
Theorem GetClients_empty_returns_error (w : World) :
  sql_text (QSelect (GetClients_builder []))
  = "SELECT id, name, birthday, score, created_at FROM `clients` WHERE id IN ()"
  /\ fst (GetClients (Pb.GetClientsRequest.mk []) w)
     = Err (if fst (round_trip w) then ErrDriver else ErrSyntax).
Proof.
  split; [reflexivity|].
  unfold GetClients, SelectContext, bind, lift, query_rows. cbn.
  destruct (round_trip w) as [[] w1]; reflexivity.
Qed.

Example UnixNano_zeroTime : UnixNano zeroTime = (-6795364578871345152)%Z.
Proof. reflexivity. Qed.

(* ===================================================================== *)
(** ** Theorems: [NewClient] *)
(* ===================================================================== *)

Lemma no_row_with_id (id : string) (rows : list ClientRow) :
  (forall r, In r rows -> c_id r <> id) ->
  existsb (fun r => String.eqb (c_id r) id) rows = false.
Proof.
  induction rows as [|r rows IH]; intros H; simpl; [reflexivity|].
  rewrite IH by (intros; apply H; now right).
  rewrite orb_false_r. apply String.eqb_neq, H. now left.
Qed.

Lemma NewClient_spec (id : string) (req : Pb.NewClientRequest.t) (w : World) :
  next_ok w -> (forall r, In r (clients (tables w)) -> c_id r <> id) ->
  NewClient id req w
  = (Ok (Pb.NewClientResponse.mk id),
     set_tables
       (mkTables
          (clients (tables w)
             ++ [mkClientRow id (Pb.NewClientRequest.Name req)
                   (stored_birthday (Pb.NewClientRequest.Birthday req))
                   (Pb.NewClientRequest.Score req) (Some (clock w))
                   (Pb.NewClientRequest.Score req)])%list
          (client_matches (tables w)))
       (snd (round_trip w))).
Proof.
  intros Hok Hfresh. destruct req as [name birthday score].
  pose proof (round_trip_ok w Hok) as Hrt.
  pose proof (round_trip_tables w) as Ht.
  pose proof (round_trip_clock w) as Hc.
  pose proof (no_row_with_id id _ Hfresh) as Hex.
  unfold NewClient, NewClient_columns, stored_birthday, ExecContext, bind, lift.
  cbn [Pb.NewClientRequest.Name Pb.NewClientRequest.Birthday
       Pb.NewClientRequest.Score].
  destruct (birthday =? 0)%Z; cbn;
    destruct (round_trip w) as [failed w1]; simpl in Hrt, Ht, Hc; subst failed;
    cbn; unfold ret, set_tables; rewrite Ht, Hc, Hex; reflexivity.
Qed.

(** A birthday other than zero is sent and stored. *)
Example NewClient_columns_with_birthday (id name : string) (score : Z) :
  NewClient_columns id (Pb.NewClientRequest.mk name 1 score)
  = (["id"; "name"; "birthday"; "score"],
     [VString id; VString name; VTime (Unix 0 1); VInt64 score]).
Proof. reflexivity. Qed.

(** C10.  [NewClient] with [Birthday = 0] leaves the [birthday] column
    out of the INSERT, and the row is stored with a NULL birthday: the
    zero timestamp is stored exactly as no birthday at all. *)
Theorem NewClient_zero_birthday_is_absent
  (id name : string) (score : Z) (w : World) :
  next_ok w ->
  (forall r, In r (clients (tables w)) -> c_id r <> id) ->
  NewClient_columns id (Pb.NewClientRequest.mk name 0 score)
  = (["id"; "name"; "score"], [VString id; VString name; VInt64 score])
  /\ (exists q,
        InsertToSql
          (Values [VString id; VString name; VInt64 score]
                  (Columns ["id"; "name"; "score"] (Insert "clients")))
        = Ok (q, [VString id; VString name; VInt64 score])
        /\ sql_text q = "INSERT INTO clients (id,name,score) VALUES (?,?,?)")
  /\ fst (NewClient id (Pb.NewClientRequest.mk name 0 score) w)
     = Ok (Pb.NewClientResponse.mk id)
  /\ clients (tables (snd (NewClient id (Pb.NewClientRequest.mk name 0 score) w)))
     = (clients (tables w)
          ++ [mkClientRow id name None score (Some (clock w)) score])%list.
Proof.
  intros Hok Hfresh. split; [reflexivity|]. split.
  - eexists. split; reflexivity.
  - rewrite (NewClient_spec _ _ _ Hok Hfresh). split; reflexivity.
Qed.

Lemma NewClient_zero_birthday_is_absent_witness :
  clients (tables (snd (NewClient "c1" (Pb.NewClientRequest.mk "ann" 0 10)
                          (mkWorld (mkTables [] []) 0 (Unix 0 0) []))))
  = [mkClientRow "c1" "ann" None 10 (Some (Unix 0 0)) 10].
Proof.
  apply (NewClient_zero_birthday_is_absent "c1" "ann" 10
           (mkWorld (mkTables [] []) 0 (Unix 0 0) [])).
  - reflexivity.
  - intros r [].
Defined.

(** C6.  A row whose [birthday] and [created_at] are NULL is returned
    without an error, but neither field comes back as zero: both carry
    [UnixNano] of Go's zero [Time], -6795364578871345152.  Such a row
    needs no other writer than the service: a client created with
    [Birthday = 0] reads back with that number as its birthday. *)
Theorem GetClients_null_times_are_not_zero :
  (forall (id name : string) (score init next : Z) (now : Time),
     fst (GetClients (Pb.GetClientsRequest.mk [id])
            (mkWorld (mkTables [mkClientRow id name None score None init] [])
                     next now []))
     = Ok (Pb.GetClientsResponse.mk
             [Pb.Client.mk id name (-6795364578871345152)%Z score
                           (-6795364578871345152)%Z]))
  /\ (forall (id name : string) (score : Z) (now : Time),
        fst (GetClients (Pb.GetClientsRequest.mk [id])
               (snd (NewClient id (Pb.NewClientRequest.mk name 0 score)
                       (mkWorld (mkTables [] []) 0 now []))))
        = Ok (Pb.GetClientsResponse.mk
                [Pb.Client.mk id name (-6795364578871345152)%Z score
                              (UnixNano now)])).
Proof.
  split; intros.
  - rewrite GetClients_spec; [|discriminate|reflexivity].
    cbn [fst tables clients filter]. rewrite requested_one. cbn [c_id].
    rewrite String.eqb_refl. reflexivity.
  - rewrite NewClient_spec; [|reflexivity|intros r []].
    rewrite GetClients_spec; [|discriminate|reflexivity].
    cbn [fst snd tables clients set_tables app filter].
    rewrite requested_one. cbn [c_id]. rewrite String.eqb_refl. reflexivity.
Qed.

(* ===================================================================== *)
(** ** Theorems: [NewMatch] *)
(* ===================================================================== *)

(** [NewMatch] makes four round trips: BEGIN, the INSERT, the UPDATE and
    COMMIT (or ROLLBACK in place of what follows a failure).  Its result
    is decided by the first three, the tables by all four. *)
Lemma NewMatch_spec (req : Pb.NewMatchRequest.t) (w : World) :
  fst (NewMatch req w)
  = (if nth_fault 0 w || nth_fault 1 w || nth_fault 2 w
     then Err ErrDriver
     else Ok (Pb.NewMatchResponse.mk (auto_increment w + 1)))
  /\ tables (snd (NewMatch req w))
     = (if nth_fault 0 w || nth_fault 1 w || nth_fault 2 w || nth_fault 3 w
        then tables w
        else recorded req (auto_increment w + 1) (tables w)).
Proof.
  destruct w as [t next now fs].
  destruct fs as [|[] [|[] [|[] [|[] fs]]]]; split; reflexivity.
Qed.

(** Whatever fails, the tables hold either both effects of the match or
    neither. *)
Lemma NewMatch_all_or_nothing (req : Pb.NewMatchRequest.t) (w : World) :
  tables (snd (NewMatch req w)) = tables w
  \/ tables (snd (NewMatch req w)) = recorded req (auto_increment w + 1) (tables w).
Proof.
  destruct (NewMatch_spec req w) as [_ ->].
  destruct (_ || _); auto.
Qed.

(** An error from [NewMatch] means that nothing was written. *)
Lemma NewMatch_error_writes_nothing
  (req : Pb.NewMatchRequest.t) (w : World) (e : error) :
  fst (NewMatch req w) = Err e -> tables (snd (NewMatch req w)) = tables w.
Proof.
  destruct (NewMatch_spec req w) as [-> ->].
  destruct (nth_fault 0 w || nth_fault 1 w || nth_fault 2 w); simpl;
    [reflexivity | discriminate].
Qed.

(** The body of [NewMatch] leaves the transaction finished exactly when
    it returns an error: [Rollback] has run. *)
Lemma NewMatch_body_rolls_back
  (req : Pb.NewMatchRequest.t) (t : Tables) (w : World) :
  tx_done (snd (fst (NewMatch_body req (mkTx t false) w)))
  = negb (is_ok (fst (fst (NewMatch_body req (mkTx t false) w)))).
Proof.
  destruct w as [t0 next now fs].
  destruct fs as [|[] [|[] [|[] fs]]]; reflexivity.
Qed.

(** C3.  When BEGIN goes through and then the round trip of the INSERT of
    the match row fails, or the one after it (the UPDATE of the score
    when the INSERT went through), [NewMatch] returns an error, its
    transaction has been rolled back, and the tables are as before: no
    match row was added and no score changed. *)
Theorem NewMatch_failed_step_rolls_back
  (req : Pb.NewMatchRequest.t) (w : World) :
  nth_fault 0 w = false ->
  nth_fault 1 w = true \/ nth_fault 2 w = true ->
  fst (NewMatch req w) = Err ErrDriver
  /\ tx_done (snd (fst (NewMatch_body req (mkTx (tables w) false)
                                      (snd (round_trip w))))) = true
  /\ client_matches (tables (snd (NewMatch req w))) = client_matches (tables w)
  /\ clients (tables (snd (NewMatch req w))) = clients (tables w).
Proof.
  intros H0 H12. destruct (NewMatch_spec req w) as [-> ->]. rewrite H0.
  split; [destruct H12 as [-> | ->]; now rewrite ?orb_true_r|].
  split; [|destruct H12 as [-> | ->]; rewrite ?orb_true_r; simpl; auto].
  rewrite NewMatch_body_rolls_back. apply negb_true_iff.
  destruct w as [t next now fs]. unfold nth_fault in *. cbn [faults] in *.
  destruct fs as [|[] [|[] [|[] [|[] fs]]]]; cbn [nth] in *;
    try discriminate H0;
    destruct H12 as [H | H]; try discriminate H; reflexivity.
Qed.

Lemma NewMatch_failed_step_rolls_back_witness :
  fst (NewMatch (Pb.NewMatchRequest.mk "c1" 5)
         (mkWorld (mkTables [mkClientRow "c1" "ann" None 10 None 10] [])
                  0 (Unix 0 0) [false; false; true]))
  = Err ErrDriver
  /\ client_matches
       (tables (snd (NewMatch (Pb.NewMatchRequest.mk "c1" 5)
          (mkWorld (mkTables [mkClientRow "c1" "ann" None 10 None 10] [])
                   0 (Unix 0 0) [false; false; true]))))
     = [].
Proof.
  pose proof (NewMatch_failed_step_rolls_back (Pb.NewMatchRequest.mk "c1" 5)
                (mkWorld (mkTables [mkClientRow "c1" "ann" None 10 None 10] [])
                         0 (Unix 0 0) [false; false; true])
                eq_refl (or_intror eq_refl)) as (Hr & _ & Hm & _).
  split; [exact Hr | exact Hm].
Defined.

(** When COMMIT fails, [NewMatch] still answers with the match id, and
    nothing was written. *)
Lemma NewMatch_failed_commit (req : Pb.NewMatchRequest.t) (w : World) :
  nth_fault 0 w = false -> nth_fault 1 w = false -> nth_fault 2 w = false ->
  nth_fault 3 w = true ->
  fst (NewMatch req w) = Ok (Pb.NewMatchResponse.mk (auto_increment w + 1))
  /\ tables (snd (NewMatch req w)) = tables w.
Proof.
  intros H0 H1 H2 H3. destruct (NewMatch_spec req w) as [-> ->].
  rewrite H0, H1, H2, H3. split; reflexivity.
Qed.

(** C1.  A client with score 10; [NewMatch] for it with delta 5 while the
    COMMIT fails: the call answers with match id 1 and no error, yet no
    match row exists and [GetClients] shows score 10 as before, not 15. *)
Theorem NewMatch_answers_ok_when_commit_fails :
  let ann := mkClientRow "c1" "ann" (Some (Unix 0 1000)) 10
                         (Some (Unix 0 2000)) 10 in
  let w := mkWorld (mkTables [ann] []) 0 (Unix 0 3000)
                   [false; false; false; true] in
  let after := NewMatch (Pb.NewMatchRequest.mk "c1" 5) w in
  fst after = Ok (Pb.NewMatchResponse.mk 1)
  /\ tables (snd after) = mkTables [ann] []
  /\ fst (GetClients (Pb.GetClientsRequest.mk ["c1"]) (snd after))
     = Ok (Pb.GetClientsResponse.mk [Pb.Client.mk "c1" "ann" 1000 10 2000]).
Proof. cbv zeta. repeat split. Qed.

(** The same call when the COMMIT goes through. *)
Example NewMatch_committed_run :
  let ann := mkClientRow "c1" "ann" (Some (Unix 0 1000)) 10
                         (Some (Unix 0 2000)) 10 in
  let w := mkWorld (mkTables [ann] []) 0 (Unix 0 3000) [] in
  let after := NewMatch (Pb.NewMatchRequest.mk "c1" 5) w in
  fst after = Ok (Pb.NewMatchResponse.mk 1)
  /\ client_matches (tables (snd after)) = [mkMatchRow 1 "c1" 5]
  /\ fst (GetClients (Pb.GetClientsRequest.mk ["c1"]) (snd after))
     = Ok (Pb.GetClientsResponse.mk [Pb.Client.mk "c1" "ann" 1000 15 2000]).
Proof. cbv zeta. repeat split. Qed.

(** The statements of a transaction never touch the committed tables;
    only [Commit] does. *)
Lemma Exec_writes_private_copy
  (q : statement) (args : list value) (tx : Tx) (w : World) :
  tables (snd (Exec q args tx w)) = tables w.
Proof.
  unfold Exec. destruct (tx_done tx); [reflexivity|].
  pose proof (round_trip_tables w) as Ht.
  destruct (round_trip w) as [[] w1]; simpl in *; auto.
  destruct (check q args); simpl; auto.
  destruct (apply_statement _ _ _ _ _) as [[[t next] res]|e]; simpl; auto.
Qed.

Lemma Rollback_writes_nothing (tx : Tx) (w : World) :
  tables (snd (Rollback tx w)) = tables w.
Proof.
  unfold Rollback. destruct (tx_done tx); [reflexivity|].
  pose proof (round_trip_tables w) as Ht.
  destruct (round_trip w) as [failed w1]; simpl in *; auto.
Qed.

(* ===================================================================== *)
(** ** Theorems: [DeleteClient] *)
(* ===================================================================== *)

Lemma DeleteClient_spec (id : string) (w : World) :
  fst (DeleteClient (Pb.DeleteClientRequest.mk id) w)
  = (if nth_fault 0 w then Err ErrDriver else Ok tt)
  /\ tables (snd (DeleteClient (Pb.DeleteClientRequest.mk id) w))
     = (if nth_fault 0 w then tables w
        else mkTables (filter (fun r => negb (has_id id r)) (clients (tables w)))
                      (client_matches (tables w))).
Proof.
  destruct w as [t next now [|[] fs]]; split; reflexivity.
Qed.

Lemma next_ok_nth_fault (w : World) : next_ok w -> nth_fault 0 w = false.
Proof.
  unfold next_ok, nth_fault. destruct (faults w); simpl; auto.
Qed.

Lemma filter_nothing_to_delete (id : string) (rows : list ClientRow) :
  (forall r, In r rows -> c_id r <> id) ->
  filter (fun r => negb (has_id id r)) rows = rows.
Proof.
  induction rows as [|r rows IH]; intros H; simpl; [reflexivity|].
  unfold has_id at 1.
  replace (String.eqb (c_id r) id) with false
    by (symmetry; apply String.eqb_neq, H; now left).
  simpl. f_equal. apply IH. intros; apply H; now right.
Qed.

(** C9.  When the round trip goes through, [DeleteClient] returns without
    an error whether or not a row has the identifier; afterwards exactly
    the rows with another identifier remain, a store without such a row
    is left as it was, and deleting once more succeeds and changes
    nothing. *)
Theorem DeleteClient_succeeds_without_match (id : string) (w : World) :
  next_ok w ->
  fst (DeleteClient (Pb.DeleteClientRequest.mk id) w) = Ok tt
  /\ (forall r,
        In r (clients (tables (snd (DeleteClient (Pb.DeleteClientRequest.mk id) w))))
        <-> In r (clients (tables w)) /\ c_id r <> id)
  /\ client_matches (tables (snd (DeleteClient (Pb.DeleteClientRequest.mk id) w)))
     = client_matches (tables w)
  /\ ((forall r, In r (clients (tables w)) -> c_id r <> id) ->
      tables (snd (DeleteClient (Pb.DeleteClientRequest.mk id) w)) = tables w)
  /\ (next_ok (snd (DeleteClient (Pb.DeleteClientRequest.mk id) w)) ->
      fst (DeleteClient (Pb.DeleteClientRequest.mk id)
             (snd (DeleteClient (Pb.DeleteClientRequest.mk id) w))) = Ok tt
      /\ tables (snd (DeleteClient (Pb.DeleteClientRequest.mk id)
                        (snd (DeleteClient (Pb.DeleteClientRequest.mk id) w))))
         = tables (snd (DeleteClient (Pb.DeleteClientRequest.mk id) w))).
Proof.
  intros Hok.
  destruct (DeleteClient_spec id w) as [Hr Ht].
  rewrite (next_ok_nth_fault w Hok) in Hr, Ht.
  set (w1 := snd (DeleteClient (Pb.DeleteClientRequest.mk id) w)) in *.
  assert (Hin : forall r, In r (clients (tables w1))
                          <-> In r (clients (tables w)) /\ c_id r <> id).
  { intros r. rewrite Ht. cbn [clients]. rewrite filter_In. unfold has_id.
    rewrite negb_true_iff, String.eqb_neq. reflexivity. }
  repeat split; try assumption; try (now apply Hin).
  - now rewrite Ht.
  - intros Hnone. rewrite Ht, filter_nothing_to_delete by assumption.
    now destruct (tables w).
  - destruct (DeleteClient_spec id w1) as [-> _].
    now rewrite (next_ok_nth_fault w1 H).
  - destruct (DeleteClient_spec id w1) as [_ ->].
    rewrite (next_ok_nth_fault w1 H).
    rewrite filter_nothing_to_delete by (intros r Hr'; now apply Hin).
    now destruct (tables w1).
Qed.

Lemma DeleteClient_succeeds_without_match_witness :
  fst (DeleteClient (Pb.DeleteClientRequest.mk "nobody")
         (mkWorld (mkTables [mkClientRow "c1" "ann" None 10 None 10] [])
                  0 (Unix 0 0) []))
  = Ok tt.
Proof.
  refine (proj1 (DeleteClient_succeeds_without_match "nobody"
                   (mkWorld (mkTables [mkClientRow "c1" "ann" None 10 None 10] [])
                            0 (Unix 0 0) []) _)).
  reflexivity.
Defined.

(* ===================================================================== *)
(** ** Theorems: [QueryClients] *)
(* ===================================================================== *)

Lemma filter_rows_no_cond (args : list value) (rows : list ClientRow) :
  filter_rows [] args rows = Some rows.
Proof.
  induction rows as [|r rows IH]; [reflexivity|].
  cbn [filter_rows eval_where]. now rewrite IH.
Qed.

Lemma project_all_id (rows : list ClientRow) :
  project_all ["id"] rows
  = Some (map (fun r => [Some (VString (c_id r))]) rows).
Proof.
  induction rows as [|r rows IH]; [reflexivity|].
  cbn [project_all map]. rewrite IH. reflexivity.
Qed.

Lemma scan_all_id (rows : list ClientRow) :
  scan_all scan_string (map (fun r => [Some (VString (c_id r))]) rows)
  = Ok (map c_id rows).
Proof.
  induction rows as [|r rows IH]; [reflexivity|].
  cbn [map scan_all scan_string]. now rewrite IH.
Qed.

Lemma ScoreSort_descending (rows : list ClientRow) :
  StronglySorted (fun a b => (c_score a >= c_score b)%Z) (ScoreSort.sort rows).
Proof.
  assert (H : StronglySorted (fun a b => is_true (ScoreDesc.leb a b))
                             (ScoreSort.sort rows)).
  { apply ScoreSort.StronglySorted_sort. intros a b c.
    unfold ScoreDesc.leb, is_true. rewrite !Z.leb_le. lia. }
  induction H as [|a l Hs IH Hall]; constructor; [assumption|].
  eapply Forall_impl; [|exact Hall].
  intros b. unfold ScoreDesc.leb, is_true. rewrite Z.leb_le. lia.
Qed.

(** C8.  With no filter populated and the round trip going through,
    [QueryClients] returns the identifiers of a rearrangement of the
    whole [clients] table in which scores never increase. *)
Theorem QueryClients_without_filters (w : World) :
  next_ok w ->
  exists rows,
    fst (QueryClients (Pb.QueryClientsRequest.mk None None None None None) w)
    = Ok (Pb.QueryClientsResponse.mk (map c_id rows))
    /\ Permutation (clients (tables w)) rows
    /\ StronglySorted (fun a b => (c_score a >= c_score b)%Z) rows.
Proof.
  intros Hok. exists (ScoreSort.sort (clients (tables w))).
  split; [|split; [apply ScoreSort.Permuted_sort | apply ScoreSort_descending]].
  unfold QueryClients, SelectContext, bind, lift, query_rows.
  cbn -[ScoreSort.sort filter_rows project_all scan_all round_trip].
  pose proof (round_trip_ok w Hok) as Hrt.
  pose proof (round_trip_tables w) as Ht.
  destruct (round_trip w) as [failed w1]. simpl in Hrt, Ht. subst failed.
  rewrite filter_rows_no_cond.
  cbn -[ScoreSort.sort filter_rows project_all scan_all].
  rewrite project_all_id, scan_all_id, Ht. reflexivity.
Qed.

Lemma QueryClients_without_filters_witness :
  exists rows,
    fst (QueryClients (Pb.QueryClientsRequest.mk None None None None None)
           (mkWorld (mkTables [mkClientRow "c1" "ann" None 10 None 10;
                               mkClientRow "c2" "bob" None 30 None 30] [])
                    0 (Unix 0 0) []))
    = Ok (Pb.QueryClientsResponse.mk (map c_id rows))
    /\ Permutation [mkClientRow "c1" "ann" None 10 None 10;
                    mkClientRow "c2" "bob" None 30 None 30] rows
    /\ StronglySorted (fun a b => (c_score a >= c_score b)%Z) rows.
Proof.
  apply (QueryClients_without_filters
           (mkWorld (mkTables [mkClientRow "c1" "ann" None 10 None 10;
                               mkClientRow "c2" "bob" None 30 None 30] [])
                    0 (Unix 0 0) [])).
  reflexivity.
Defined.

Example QueryClients_without_filters_run :
  fst (QueryClients (Pb.QueryClientsRequest.mk None None None None None)
         (mkWorld (mkTables [mkClientRow "c1" "ann" None 10 None 10;
                             mkClientRow "c2" "bob" None 30 None 30] [])
                  0 (Unix 0 0) []))
  = Ok (Pb.QueryClientsResponse.mk ["c2"; "c1"]).
Proof. reflexivity. Qed.

(* ===================================================================== *)
(** ** Theorems: the score invariant *)
(* ===================================================================== *)

Lemma sum_deltas_app (id : string) (ms1 ms2 : list MatchRow) :
  sum_deltas id (ms1 ++ ms2) = (sum_deltas id ms1 + sum_deltas id ms2)%Z.
Proof.
  induction ms1 as [|m ms1 IH]; simpl; [reflexivity|]. rewrite IH. lia.
Qed.

Lemma sum_deltas_unreferenced (id : string) (ms : list MatchRow) :
  (forall m, In m ms -> m_client_id m <> id) -> sum_deltas id ms = 0%Z.
Proof.
  induction ms as [|m ms IH]; intros H; simpl; [reflexivity|].
  rewrite IH by (intros; apply H; now right).
  replace (String.eqb (m_client_id m) id) with false; [reflexivity|].
  symmetry. apply String.eqb_neq, H. now left.
Qed.

Lemma add_score_id (id : string) (delta : Z) (r : ClientRow) :
  c_id (add_score id delta r) = c_id r.
Proof. unfold add_score. now destruct (String.eqb (c_id r) id). Qed.

Lemma add_score_initial (id : string) (delta : Z) (r : ClientRow) :
  c_initial (add_score id delta r) = c_initial r.
Proof. unfold add_score. now destruct (String.eqb (c_id r) id). Qed.

Lemma add_score_score (id : string) (delta : Z) (r : ClientRow) :
  c_score (add_score id delta r)
  = (c_score r + if String.eqb (c_id r) id then delta else 0)%Z.
Proof.
  unfold add_score. destruct (String.eqb (c_id r) id); simpl; lia.
Qed.

(** Both effects of a match together keep the invariant. *)
Lemma recorded_keeps_invariant
  (req : Pb.NewMatchRequest.t) (id : Z) (t : Tables) :
  score_invariant t -> score_invariant (recorded req id t).
Proof.
  intros Hinv r Hr. unfold recorded in *. cbn [clients client_matches] in *.
  apply in_map_iff in Hr as (r0 & <- & Hr0).
  specialize (Hinv r0 Hr0).
  rewrite add_score_id, add_score_initial, add_score_score, sum_deltas_app.
  cbn [sum_deltas m_client_id m_score].
  rewrite (String.eqb_sym (Pb.NewMatchRequest.ClientId req)). lia.
Qed.

Lemma NewMatch_keeps_invariant (req : Pb.NewMatchRequest.t) (w : World) :
  score_invariant (tables w) -> score_invariant (tables (snd (NewMatch req w))).
Proof.
  intros Hinv.
  destruct (NewMatch_all_or_nothing req w) as [-> | ->];
    [assumption | now apply recorded_keeps_invariant].
Qed.

(** [NewClient] writes nothing or appends one row that carries the
    identifier and whose score is its initial score. *)
Lemma NewClient_tables (id : string) (req : Pb.NewClientRequest.t) (w : World) :
  tables (snd (NewClient id req w)) = tables w
  \/ exists r,
       c_id r = id /\ c_score r = c_initial r
       /\ tables (snd (NewClient id req w))
          = mkTables (clients (tables w) ++ [r])%list (client_matches (tables w)).
Proof.
  destruct req as [name birthday score].
  unfold NewClient, NewClient_columns, ExecContext, bind, lift.
  cbn [Pb.NewClientRequest.Name Pb.NewClientRequest.Birthday
       Pb.NewClientRequest.Score].
  pose proof (round_trip_tables w) as Ht.
  destruct (birthday =? 0)%Z; cbn -[round_trip];
    destruct (round_trip w) as [[] w1]; simpl in Ht; cbn; auto;
    destruct (existsb _ _); cbn; auto; right; eexists;
    (split; [|split; [|rewrite Ht; reflexivity]]); reflexivity.
Qed.

Lemma NewClient_keeps_invariant
  (id : string) (req : Pb.NewClientRequest.t) (w : World) :
  unreferenced id (tables w) ->
  score_invariant (tables w) ->
  score_invariant (tables (snd (NewClient id req w))).
Proof.
  intros Hfresh Hinv.
  destruct (NewClient_tables id req w) as [-> | (r & Hid & Hsc & ->)];
    [assumption|].
  intros r' Hr'. cbn [clients client_matches] in *.
  apply in_app_or in Hr' as [Hr' | [<- | []]]; [now apply Hinv|].
  rewrite Hid, (sum_deltas_unreferenced id) by exact Hfresh. lia.
Qed.

Lemma DeleteClient_keeps_invariant (req : Pb.DeleteClientRequest.t) (w : World) :
  score_invariant (tables w) ->
  score_invariant (tables (snd (DeleteClient req w))).
Proof.
  intros Hinv. destruct req as [id].
  destruct (DeleteClient_spec id w) as [_ ->].
  destruct (nth_fault 0 w); [assumption|].
  intros r Hr. cbn [clients client_matches] in *.
  apply filter_In in Hr as [Hr _]. now apply Hinv.
Qed.

Lemma DeleteAllClients_keeps_invariant (w : World) :
  score_invariant (tables w) ->
  score_invariant (tables (snd (DeleteAllClients w))).
Proof.
  intros Hinv. destruct w as [t next now [|[] fs]]; cbn; try assumption;
    intros r [].
Qed.

Lemma QueryClients_writes_nothing (req : Pb.QueryClientsRequest.t) (w : World) :
  tables (snd (QueryClients req w)) = tables w.
Proof.
  unfold QueryClients, bind, lift.
  rewrite QueryClients_binds_promised_values.
  pose proof (SelectContext_world scan_string
                (QSelect (QueryClients_builder req)) (promised_values req) w) as H.
  destruct (SelectContext _ _ _ w) as [[ids|e] w1]; simpl in *; subst;
    apply round_trip_tables.
Qed.

Lemma GetClients_writes_nothing (req : Pb.GetClientsRequest.t) (w : World) :
  tables (snd (GetClients req w)) = tables w.
Proof.
  unfold GetClients, bind, lift. rewrite GetClients_statement.
  pose proof (SelectContext_world scan_rawclient
                (QSelect (GetClients_builder (Pb.GetClientsRequest.Ids req)))
                (map VString (Pb.GetClientsRequest.Ids req)) w) as H.
  destruct (SelectContext _ _ _ w) as [[raws|e] w1]; simpl in *; subst;
    apply round_trip_tables.
Qed.

Lemma step_keeps_invariant (c : call) (w : World) :
  fresh_id c w -> score_invariant (tables w) ->
  score_invariant (tables (step c w)).
Proof.
  destruct c; cbn [step fresh_id]; intros Hfresh Hinv.
  - now apply NewClient_keeps_invariant.
  - now rewrite QueryClients_writes_nothing.
  - now rewrite GetClients_writes_nothing.
  - now apply NewMatch_keeps_invariant.
  - now apply DeleteClient_keeps_invariant.
  - now apply DeleteAllClients_keeps_invariant.
Qed.

(** Between any two calls of a run, every stored score is the initial
    score of its row plus the deltas of the match rows that reference
    the row, provided no new client receives an identifier that match
    rows already reference.  Injected faults do not matter. *)
Lemma score_invariant_run (cs : list call) :
  forall w, fresh_ids cs w -> score_invariant (tables w) ->
            score_invariant (tables (run cs w)).
Proof.
  induction cs as [|c cs IH]; intros w Hfresh Hinv; [assumption|].
  destruct Hfresh as [Hc Hrest]. cbn [run].
  apply IH; [assumption|]. now apply step_keeps_invariant.
Qed.

Lemma filter_requested_add_score (id : string) (delta : Z) (rows : list ClientRow) :
  map decode (filter (requested [id]) (map (add_score id delta) rows))
  = map (bump delta) (map decode (filter (requested [id]) rows)).
Proof.
  induction rows as [|r rows IH]; [reflexivity|].
  cbn [map filter]. rewrite !requested_one, add_score_id.
  destruct (String.eqb (c_id r) id) eqn:E; [|exact IH].
  cbn [map]. rewrite IH. f_equal.
  unfold add_score. rewrite E. reflexivity.
Qed.

(** With every round trip going through, the match is recorded, and
    [GetClients] for the client then shows every score it showed before,
    raised by the delta. *)
Lemma NewMatch_then_GetClients (req : Pb.NewMatchRequest.t) (w : World) :
  faults w = [] ->
  fst (NewMatch req w) = Ok (Pb.NewMatchResponse.mk (auto_increment w + 1))
  /\ forall before,
       fst (GetClients (Pb.GetClientsRequest.mk [Pb.NewMatchRequest.ClientId req]) w)
       = Ok (Pb.GetClientsResponse.mk before) ->
       fst (GetClients (Pb.GetClientsRequest.mk [Pb.NewMatchRequest.ClientId req])
              (snd (NewMatch req w)))
       = Ok (Pb.GetClientsResponse.mk
               (map (bump (Pb.NewMatchRequest.Score req)) before)).
Proof.
  intros Hf. destruct w as [t next now fs]. simpl in Hf. subst fs.
  split; [reflexivity|]. intros before.
  rewrite !GetClients_spec by (discriminate || reflexivity).
  cbn [fst]. intros [= <-]. f_equal. f_equal.
  apply filter_requested_add_score.
Qed.

(* ===================================================================== *)
(** ** Further properties: [GetClients] *)
(* ===================================================================== *)

Lemma requested_In (ids : list string) (r : ClientRow) :
  requested ids r = true <-> In (c_id r) ids.
Proof.
  unfold requested. rewrite existsb_exists. split.
  - intros (x & Hx & E). apply String.eqb_eq in E. now subst.
  - intros H. exists (c_id r). split; [assumption | apply String.eqb_refl].
Qed.

Lemma faults_round_trip (w : World) :
  faults (snd (round_trip w)) = tl (faults w).
Proof. destruct w as [t next now [|f fs]]; reflexivity. Qed.

Lemma round_trip_auto_increment (w : World) :
  auto_increment (snd (round_trip w)) = auto_increment w.
Proof. unfold round_trip. destruct (faults w); reflexivity. Qed.



(** X2.  Identifiers without a stored row are left out without an error:
    when none of the requested identifiers exists, [GetClients] returns
    the empty list. *)
Theorem GetClients_unknown_ids_give_empty_list (ids : list string) (w : World) :
  ids <> [] -> next_ok w ->
  (forall r, In r (clients (tables w)) -> ~ In (c_id r) ids) ->
  fst (GetClients (Pb.GetClientsRequest.mk ids) w)
  = Ok (Pb.GetClientsResponse.mk []).
Proof.
  intros Hne Hok Hnone. rewrite (GetClients_spec ids w Hne Hok). cbn [fst].
  replace (filter (requested ids) (clients (tables w))) with (@nil ClientRow);
    [reflexivity|].
  symmetry. induction (clients (tables w)) as [|r rows IH]; [reflexivity|].
  cbn [filter]. destruct (requested ids r) eqn:E.
  - apply requested_In in E. exfalso. apply (Hnone r); [now left | exact E].
  - apply IH. intros r' Hr'. apply Hnone. now right.
Qed.

Lemma GetClients_unknown_ids_give_empty_list_witness :
  fst (GetClients (Pb.GetClientsRequest.mk ["zz"])
         (mkWorld (mkTables [mkClientRow "c1" "ann" None 10 None 10] [])
                  0 (Unix 0 0) []))
  = Ok (Pb.GetClientsResponse.mk []).
Proof.
  apply (GetClients_unknown_ids_give_empty_list ["zz"]
           (mkWorld (mkTables [mkClientRow "c1" "ann" None 10 None 10] [])
                    0 (Unix 0 0) [])).
  - discriminate.
  - reflexivity.
  - intros r [<- | []] [H | []]. discriminate H.
Defined.

(** X3.  The answer of [GetClients] depends only on which identifiers are
    requested: repeating an identifier or reordering the request changes
    nothing (clients come in table order, each once). *)
Theorem GetClients_depends_on_members (ids ids' : list string) (w : World) :
  ids <> [] -> next_ok w ->
  (forall x, In x ids <-> In x ids') ->
  fst (GetClients (Pb.GetClientsRequest.mk ids') w)
  = fst (GetClients (Pb.GetClientsRequest.mk ids) w).
Proof.
  intros Hne Hok Hsame.
  assert (Hne' : ids' <> []).
  { destruct ids as [|i ids]; [congruence|].
    intros ->. apply (proj1 (Hsame i)). now left. }
  rewrite (GetClients_spec ids w Hne Hok), (GetClients_spec ids' w Hne' Hok).
  cbn [fst]. do 3 f_equal. apply filter_ext. intros r.
  destruct (requested ids r) eqn:E.
  - apply requested_In. apply Hsame. now apply requested_In.
  - destruct (requested ids' r) eqn:E'; [|reflexivity].
    apply requested_In, Hsame, requested_In in E'. congruence.
Qed.

Lemma GetClients_depends_on_members_witness :
  fst (GetClients (Pb.GetClientsRequest.mk ["c2"; "c1"; "c2"])
         (mkWorld (mkTables [mkClientRow "c1" "ann" None 10 None 10;
                             mkClientRow "c2" "bob" None 30 None 30] [])
                  0 (Unix 0 0) []))
  = fst (GetClients (Pb.GetClientsRequest.mk ["c1"; "c2"])
           (mkWorld (mkTables [mkClientRow "c1" "ann" None 10 None 10;
                               mkClientRow "c2" "bob" None 30 None 30] [])
                    0 (Unix 0 0) [])).
Proof.
  apply (GetClients_depends_on_members ["c1"; "c2"] ["c2"; "c1"; "c2"]).
  - discriminate.
  - reflexivity.
  - intros x. simpl. tauto.
Defined.

(** X4.  For every list of identifiers the statement of [GetClients] has
    exactly as many placeholders as identifiers, and binds the
    identifiers in the order of the request. *)
Theorem GetClients_placeholders_match_ids (ids : list string) :
  ToSql (GetClients_builder ids)
  = Ok (QSelect (GetClients_builder ids), map VString ids)
  /\ count_placeholders (sql_text (QSelect (GetClients_builder ids)))
     = List.length ids
  /\ well_bound (GetClients_builder ids).
Proof.
  split; [apply GetClients_statement|]. split.
  - rewrite GetClients_text, !count_placeholders_app.
    rewrite count_placeholders_Placeholders. cbn. lia.
  - unfold well_bound, GetClients_builder. cbn. constructor; [|constructor].
    cbn. rewrite count_placeholders_app, count_placeholders_Placeholders.
    cbn. lia.
Qed.

(* ===================================================================== *)
(** ** Further properties: [NewClient] *)
(* ===================================================================== *)

Lemma filter_requested_others (id : string) (rows : list ClientRow) :
  (forall r, In r rows -> c_id r <> id) ->
  filter (requested [id]) rows = [].
Proof.
  induction rows as [|r rows IH]; intros H; [reflexivity|].
  cbn [filter]. rewrite requested_one.
  replace (String.eqb (c_id r) id) with false
    by (symmetry; apply String.eqb_neq, H; now left).
  apply IH. intros; apply H; now right.
Qed.




(** X7.  For every request the INSERT of [NewClient] names one column per
    bound value and has one placeholder per bound value: three of each
    for a zero birthday, four otherwise, with the identifier first. *)
Theorem NewClient_statement_is_well_formed
  (id : string) (req : Pb.NewClientRequest.t) :
  exists q,
    InsertToSql (Values (snd (NewClient_columns id req))
                        (Columns (fst (NewClient_columns id req))
                                 (Insert "clients")))
    = Ok (q, snd (NewClient_columns id req))
    /\ count_placeholders (sql_text q)
       = List.length (snd (NewClient_columns id req))
    /\ List.length (fst (NewClient_columns id req))
       = List.length (snd (NewClient_columns id req))
    /\ List.length (snd (NewClient_columns id req))
       = (if (Pb.NewClientRequest.Birthday req =? 0)%Z then 3 else 4)%nat
    /\ hd_error (snd (NewClient_columns id req)) = Some (VString id).
Proof.
  destruct req as [name birthday score]. unfold NewClient_columns.
  cbn [Pb.NewClientRequest.Name Pb.NewClientRequest.Birthday
       Pb.NewClientRequest.Score].
  destruct (birthday =? 0)%Z; eexists; repeat split.
Qed.

(* ===================================================================== *)
(** ** Further properties: the reading handlers *)
(* ===================================================================== *)

(** X8.  [QueryClients] and [GetClients] never write: whatever the
    request and whatever fails, the tables and the auto-increment counter
    are afterwards as before. *)
Theorem reading_handlers_write_nothing
  (q : Pb.QueryClientsRequest.t) (g : Pb.GetClientsRequest.t) (w : World) :
  tables (snd (QueryClients q w)) = tables w
  /\ auto_increment (snd (QueryClients q w)) = auto_increment w
  /\ tables (snd (GetClients g w)) = tables w
  /\ auto_increment (snd (GetClients g w)) = auto_increment w.
Proof.
  assert (Hq : snd (QueryClients q w) = snd (round_trip w)).
  { unfold QueryClients, bind, lift.
    rewrite QueryClients_binds_promised_values.
    pose proof (SelectContext_world scan_string
                  (QSelect (QueryClients_builder q)) (promised_values q) w) as H.
    destruct (SelectContext _ _ _ w) as [[ids|e] w1]; simpl in *; now subst. }
  assert (Hg : snd (GetClients g w) = snd (round_trip w)).
  { unfold GetClients, bind, lift. rewrite GetClients_statement.
    pose proof (SelectContext_world scan_rawclient
                  (QSelect (GetClients_builder (Pb.GetClientsRequest.Ids g)))
                  (map VString (Pb.GetClientsRequest.Ids g)) w) as H.
    destruct (SelectContext _ _ _ w) as [[raws|e] w1]; simpl in *; now subst. }
  rewrite Hq, Hg, round_trip_tables, round_trip_auto_increment. auto.
Qed.

(* ===================================================================== *)
(** ** Further properties: [DeleteAllClients], [DeleteClient] *)
(* ===================================================================== *)

Lemma QueryClients_all (w : World) :
  next_ok w ->
  fst (QueryClients (Pb.QueryClientsRequest.mk None None None None None) w)
  = Ok (Pb.QueryClientsResponse.mk
          (map c_id (ScoreSort.sort (clients (tables w))))).
Proof.
  intros Hok.
  unfold QueryClients, SelectContext, bind, lift, query_rows.
  cbn -[ScoreSort.sort filter_rows project_all scan_all round_trip].
  pose proof (round_trip_ok w Hok) as Hrt.
  pose proof (round_trip_tables w) as Ht.
  destruct (round_trip w) as [failed w1]. simpl in Hrt, Ht. subst failed.
  rewrite filter_rows_no_cond.
  cbn -[ScoreSort.sort filter_rows project_all scan_all].
  rewrite project_all_id, scan_all_id, Ht. reflexivity.
Qed.

Lemma DeleteAllClients_world (w : World) :
  nth_fault 0 w = false ->
  DeleteAllClients w
  = (Ok tt, set_tables (mkTables [] (client_matches (tables w)))
                       (snd (round_trip w))).
Proof.
  destruct w as [t next now [|[] fs]]; intros H; try discriminate H;
    reflexivity.
Qed.

Lemma next_ok_after_round_trip (t : Tables) (w : World) :
  nth_fault 1 w = false -> next_ok (set_tables t (snd (round_trip w))).
Proof.
  unfold next_ok, set_tables, nth_fault. cbn [faults].
  rewrite faults_round_trip. destruct (faults w) as [|f0 [|f1 fs]]; auto.
Qed.

(** X9.  When the round trip goes through, [DeleteAllClients] returns
    without an error and leaves no client at all, whatever was stored,
    while every match row stays; a [QueryClients] without filters then
    returns the empty list.  When the round trip fails it returns the
    error and deletes nothing. *)
Theorem DeleteAllClients_leaves_no_client (w : World) :
  (nth_fault 0 w = false ->
   fst (DeleteAllClients w) = Ok tt
   /\ clients (tables (snd (DeleteAllClients w))) = []
   /\ client_matches (tables (snd (DeleteAllClients w)))
      = client_matches (tables w)
   /\ (nth_fault 1 w = false ->
       fst (QueryClients (Pb.QueryClientsRequest.mk None None None None None)
              (snd (DeleteAllClients w)))
       = Ok (Pb.QueryClientsResponse.mk [])))
  /\ (nth_fault 0 w = true ->
      fst (DeleteAllClients w) = Err ErrDriver
      /\ tables (snd (DeleteAllClients w)) = tables w).
Proof.
  split.
  - intros H0. rewrite (DeleteAllClients_world w H0). cbn [fst snd].
    repeat split. intros H1.
    rewrite QueryClients_all by now apply next_ok_after_round_trip.
    reflexivity.
  - destruct w as [t next now [|[] fs]]; intros H; try discriminate H.
    split; reflexivity.
Qed.

Lemma DeleteAllClients_leaves_no_client_witness :
  clients (tables (snd (DeleteAllClients
     (mkWorld (mkTables [mkClientRow "c1" "ann" None 10 None 10;
                         mkClientRow "c2" "bob" None 30 None 30]
                        [mkMatchRow 1 "c1" 5])
              1 (Unix 0 0) []))))
  = []
  /\ fst (DeleteAllClients
            (mkWorld (mkTables [mkClientRow "c1" "ann" None 10 None 10] [])
                     0 (Unix 0 0) [true]))
     = Err ErrDriver.
Proof.
  split.
  - refine (proj1 (proj2 (proj1 (DeleteAllClients_leaves_no_client _) _))).
    reflexivity.
  - refine (proj1 (proj2 (DeleteAllClients_leaves_no_client _) _)).
    reflexivity.
Defined.

Lemma DeleteClient_world (id : string) (w : World) :
  nth_fault 0 w = false ->
  DeleteClient (Pb.DeleteClientRequest.mk id) w
  = (Ok tt,
     set_tables (mkTables (filter (fun r => negb (has_id id r))
                                  (clients (tables w)))
                          (client_matches (tables w)))
                (snd (round_trip w))).
Proof.
  destruct w as [t next now [|[] fs]]; intros H; try discriminate H;
    reflexivity.
Qed.

Lemma filter_requested_after_delete
  (id : string) (ids : list string) (rows : list ClientRow) :
  ~ In id ids ->
  filter (requested ids) (filter (fun r => negb (has_id id r)) rows)
  = filter (requested ids) rows.
Proof.
  intros Hnot. induction rows as [|r rows IH]; [reflexivity|].
  cbn [filter]. unfold has_id at 1.
  destruct (String.eqb (c_id r) id) eqn:E; cbn [negb].
  - apply String.eqb_eq in E.
    replace (requested ids r) with false; [exact IH|].
    symmetry. apply not_true_is_false. intros H.
    apply requested_In in H. congruence.
  - cbn [filter]. now rewrite IH.
Qed.

Lemma filter_requested_deleted (id : string) (rows : list ClientRow) :
  filter (requested [id]) (filter (fun r => negb (has_id id r)) rows) = [].
Proof.
  apply filter_requested_others. intros r Hr.
  apply filter_In in Hr as [_ Hr]. unfold has_id in Hr.
  now apply negb_true_iff, String.eqb_neq in Hr.
Qed.

(** X10.  [DeleteClient] removes the client and nothing else: once it has
    gone through, [GetClients] for the deleted identifier returns the
    empty list, and [GetClients] for any identifiers other than the
    deleted one returns what it returned before. *)
Theorem DeleteClient_removes_only_that_client
  (id : string) (ids : list string) (w : World) :
  nth_fault 0 w = false -> nth_fault 1 w = false ->
  ids <> [] -> ~ In id ids ->
  fst (GetClients (Pb.GetClientsRequest.mk [id])
         (snd (DeleteClient (Pb.DeleteClientRequest.mk id) w)))
  = Ok (Pb.GetClientsResponse.mk [])
  /\ fst (GetClients (Pb.GetClientsRequest.mk ids)
            (snd (DeleteClient (Pb.DeleteClientRequest.mk id) w)))
     = fst (GetClients (Pb.GetClientsRequest.mk ids) w).
Proof.
  intros H0 H1 Hne Hnot.
  assert (Hok : next_ok w).
  { unfold next_ok, nth_fault in *. now destruct (faults w). }
  rewrite (DeleteClient_world id w H0). cbn [snd].
  rewrite !GetClients_spec;
    try assumption; try discriminate;
    try now apply next_ok_after_round_trip.
  cbn [fst tables set_tables clients].
  now rewrite filter_requested_deleted, filter_requested_after_delete.
Qed.

Lemma DeleteClient_removes_only_that_client_witness :
  fst (GetClients (Pb.GetClientsRequest.mk ["c1"])
         (snd (DeleteClient (Pb.DeleteClientRequest.mk "c1")
                 (mkWorld (mkTables [mkClientRow "c1" "ann" None 10 None 10;
                                     mkClientRow "c2" "bob" None 30 None 30] [])
                          0 (Unix 0 0) []))))
  = Ok (Pb.GetClientsResponse.mk []).
Proof.
  refine (proj1 (DeleteClient_removes_only_that_client "c1" ["c2"]
                   (mkWorld (mkTables [mkClientRow "c1" "ann" None 10 None 10;
                                       mkClientRow "c2" "bob" None 30 None 30] [])
                            0 (Unix 0 0) []) eq_refl eq_refl _ _)).
  - discriminate.
  - intros [H | []]. discriminate H.
Defined.

(* ===================================================================== *)
(** ** Further properties: [NewMatch] *)
(* ===================================================================== *)

Lemma add_score_other (id : string) (delta : Z) (r : ClientRow) :
  c_id r <> id -> add_score id delta r = r.
Proof.
  intros H. unfold add_score.
  now replace (String.eqb (c_id r) id) with false
    by (symmetry; now apply String.eqb_neq).
Qed.

Lemma map_add_score_others (id : string) (delta : Z) (rows : list ClientRow) :
  (forall r, In r rows -> c_id r <> id) ->
  map (add_score id delta) rows = rows.
Proof.
  induction rows as [|r rows IH]; intros H; [reflexivity|].
  cbn [map]. rewrite add_score_other by (apply H; now left).
  f_equal. apply IH. intros; apply H; now right.
Qed.

Lemma add_score_zero (id : string) (r : ClientRow) : add_score id 0 r = r.
Proof.
  unfold add_score. destruct (String.eqb (c_id r) id); [|reflexivity].
  destruct r; cbn. now rewrite Z.add_0_r.
Qed.

Lemma add_score_add (id : string) (a b : Z) (r : ClientRow) :
  add_score id b (add_score id a r) = add_score id (a + b) r.
Proof.
  unfold add_score. destruct (String.eqb (c_id r) id) eqn:E; cbn [c_id].
  - rewrite E. cbn. now rewrite Z.add_assoc.
  - now rewrite E.
Qed.

Lemma NewMatch_committed (req : Pb.NewMatchRequest.t) (w : World) :
  nth_fault 0 w = false -> nth_fault 1 w = false ->
  nth_fault 2 w = false -> nth_fault 3 w = false ->
  fst (NewMatch req w) = Ok (Pb.NewMatchResponse.mk (auto_increment w + 1))
  /\ tables (snd (NewMatch req w))
     = recorded req (auto_increment w + 1) (tables w).
Proof.
  intros H0 H1 H2 H3. destruct (NewMatch_spec req w) as [-> ->].
  rewrite H0, H1, H2, H3. split; reflexivity.
Qed.

(** X11.  When all four round trips go through, [NewMatch] stores one new
    match row that carries the returned identifier, the client
    identifier and the delta of the request; every client row with that
    identifier has its score raised by the delta and nothing else
    changed, and every other client row is untouched. *)
Theorem NewMatch_records_match_and_score
  (req : Pb.NewMatchRequest.t) (w : World) :
  nth_fault 0 w = false -> nth_fault 1 w = false ->
  nth_fault 2 w = false -> nth_fault 3 w = false ->
  exists matchId,
    fst (NewMatch req w) = Ok (Pb.NewMatchResponse.mk matchId)
    /\ client_matches (tables (snd (NewMatch req w)))
       = (client_matches (tables w)
            ++ [mkMatchRow matchId (Pb.NewMatchRequest.ClientId req)
                           (Pb.NewMatchRequest.Score req)])%list
    /\ clients (tables (snd (NewMatch req w)))
       = map (fun r =>
                if String.eqb (c_id r) (Pb.NewMatchRequest.ClientId req)
                then mkClientRow (c_id r) (c_name r) (c_birthday r)
                       (c_score r + Pb.NewMatchRequest.Score req)
                       (c_created_at r) (c_initial r)
                else r)
             (clients (tables w)).
Proof.
  intros H0 H1 H2 H3.
  destruct (NewMatch_committed req w H0 H1 H2 H3) as [Hr Ht].
  exists (auto_increment w + 1)%Z. rewrite Hr, Ht. repeat split.
Qed.

Lemma NewMatch_records_match_and_score_witness :
  exists matchId,
    fst (NewMatch (Pb.NewMatchRequest.mk "c1" 5)
           (mkWorld (mkTables [mkClientRow "c1" "ann" None 10 None 10;
                               mkClientRow "c2" "bob" None 30 None 30] [])
                    7 (Unix 0 0) []))
    = Ok (Pb.NewMatchResponse.mk matchId)
    /\ client_matches
         (tables (snd (NewMatch (Pb.NewMatchRequest.mk "c1" 5)
            (mkWorld (mkTables [mkClientRow "c1" "ann" None 10 None 10;
                                mkClientRow "c2" "bob" None 30 None 30] [])
                     7 (Unix 0 0) []))))
       = [mkMatchRow matchId "c1" 5].
Proof.
  destruct (NewMatch_records_match_and_score (Pb.NewMatchRequest.mk "c1" 5)
              (mkWorld (mkTables [mkClientRow "c1" "ann" None 10 None 10;
                                  mkClientRow "c2" "bob" None 30 None 30] [])
                       7 (Unix 0 0) []) eq_refl eq_refl eq_refl eq_refl)
    as (matchId & Hr & Hm & _).
  exists matchId. split; [exact Hr | exact Hm].
Defined.

(** X12.  [NewMatch] does not check that the client exists: for an
    identifier that no client row carries it still succeeds and stores
    the match row, and no client row changes. *)
Theorem NewMatch_unknown_client_leaves_dangling_match
  (req : Pb.NewMatchRequest.t) (w : World) :
  nth_fault 0 w = false -> nth_fault 1 w = false ->
  nth_fault 2 w = false -> nth_fault 3 w = false ->
  (forall r, In r (clients (tables w)) ->
             c_id r <> Pb.NewMatchRequest.ClientId req) ->
  is_ok (fst (NewMatch req w)) = true
  /\ clients (tables (snd (NewMatch req w))) = clients (tables w)
  /\ exists m,
       client_matches (tables (snd (NewMatch req w)))
       = (client_matches (tables w) ++ [m])%list
       /\ m_client_id m = Pb.NewMatchRequest.ClientId req
       /\ m_score m = Pb.NewMatchRequest.Score req.
Proof.
  intros H0 H1 H2 H3 Hnone.
  destruct (NewMatch_committed req w H0 H1 H2 H3) as [-> ->].
  split; [reflexivity|]. unfold recorded. cbn [clients client_matches].
  split; [now apply map_add_score_others|].
  eexists. repeat split.
Qed.

Lemma NewMatch_unknown_client_leaves_dangling_match_witness :
  clients (tables (snd (NewMatch (Pb.NewMatchRequest.mk "nobody" 5)
     (mkWorld (mkTables [mkClientRow "c1" "ann" None 10 None 10] [])
              0 (Unix 0 0) []))))
  = [mkClientRow "c1" "ann" None 10 None 10].
Proof.
  refine (proj1 (proj2 (NewMatch_unknown_client_leaves_dangling_match
                          (Pb.NewMatchRequest.mk "nobody" 5)
                          (mkWorld (mkTables [mkClientRow "c1" "ann" None 10 None 10] [])
                                   0 (Unix 0 0) [])
                          eq_refl eq_refl eq_refl eq_refl _))).
  intros r [<- | []]. discriminate.
Defined.

(** X13.  Whatever fails, [NewMatch] changes nothing of a client but its
    score: the client rows afterwards are the rows before, one for one,
    with the same identifier, name, birthday and creation time, and the
    rows of other clients are exactly as before.  It never removes a
    match row. *)
Theorem NewMatch_changes_only_scores
  (req : Pb.NewMatchRequest.t) (w : World) :
  Forall2 (fun r r' =>
             c_id r' = c_id r /\ c_name r' = c_name r
             /\ c_birthday r' = c_birthday r
             /\ c_created_at r' = c_created_at r
             /\ (c_id r <> Pb.NewMatchRequest.ClientId req -> r' = r))
          (clients (tables w)) (clients (tables (snd (NewMatch req w))))
  /\ exists added,
       client_matches (tables (snd (NewMatch req w)))
       = (client_matches (tables w) ++ added)%list.
Proof.
  destruct (NewMatch_all_or_nothing req w) as [-> | ->].
  - split; [|exists []; now rewrite app_nil_r].
    induction (clients (tables w)); constructor; auto 6.
  - unfold recorded. cbn [clients client_matches].
    split; [|eexists; reflexivity].
    induction (clients (tables w)) as [|r rows IH]; cbn [map];
      constructor; [|exact IH].
    unfold add_score.
    destruct (String.eqb (c_id r) (Pb.NewMatchRequest.ClientId req)) eqn:E;
      cbn; repeat split; auto.
    apply String.eqb_eq in E. congruence.
Qed.

Lemma NewMatch_no_faults (req : Pb.NewMatchRequest.t) (w : World) :
  faults w = [] ->
  faults (snd (NewMatch req w)) = []
  /\ tables (snd (NewMatch req w))
     = recorded req (auto_increment w + 1) (tables w).
Proof.
  destruct w as [t next now fs]. cbn [faults]. intros ->.
  split; reflexivity.
Qed.

(** X14.  No update is lost over successive calls: after [NewMatch] for
    one client with the deltas [ds], one call after the other and no
    round trip failing, every row of that client has its score raised by
    the sum of the deltas, every other row is as before, and the match
    table has gained one row per delta, in order. *)
Theorem NewMatch_sequence_adds_up (id : string) (ds : list Z) :
  forall w,
    faults w = [] ->
    clients (tables (run (map (fun d => CallNewMatch (Pb.NewMatchRequest.mk id d)) ds) w))
    = map (add_score id (fold_right Z.add 0%Z ds)) (clients (tables w))
    /\ map (fun m => (m_client_id m, m_score m))
           (client_matches
              (tables (run (map (fun d => CallNewMatch (Pb.NewMatchRequest.mk id d)) ds) w)))
       = (map (fun m => (m_client_id m, m_score m)) (client_matches (tables w))
            ++ map (fun d => (id, d)) ds)%list.
Proof.
  induction ds as [|d ds IH]; intros w Hf; cbn [map run fold_right].
  - split; [|now rewrite app_nil_r].
    rewrite (map_ext _ (fun r => r)) by apply add_score_zero.
    now rewrite map_id.
  - cbn [step].
    destruct (NewMatch_no_faults (Pb.NewMatchRequest.mk id d) w Hf) as [Hf' Ht].
    destruct (IH _ Hf') as [-> ->]. rewrite Ht. unfold recorded.
    cbn [clients client_matches Pb.NewMatchRequest.ClientId
         Pb.NewMatchRequest.Score].
    split.
    + rewrite map_map. apply map_ext. intros r. apply add_score_add.
    + rewrite map_app, <- app_assoc. reflexivity.
Qed.

Lemma NewMatch_sequence_adds_up_witness :
  clients (tables (run (map (fun d => CallNewMatch (Pb.NewMatchRequest.mk "c1" d))
                            [5; -2; 4]%Z)
                       (mkWorld (mkTables [mkClientRow "c1" "ann" None 10 None 10;
                                           mkClientRow "c2" "bob" None 30 None 30] [])
                                0 (Unix 0 0) [])))
  = [mkClientRow "c1" "ann" None 17 None 10;
     mkClientRow "c2" "bob" None 30 None 30].
Proof.
  refine (proj1 (NewMatch_sequence_adds_up "c1" [5; -2; 4]%Z
                   (mkWorld (mkTables [mkClientRow "c1" "ann" None 10 None 10;
                                       mkClientRow "c2" "bob" None 30 None 30] [])
                            0 (Unix 0 0) []) _)).
  reflexivity.
Defined.

(* ===================================================================== *)
(** ** Further properties: runs of calls *)
(* ===================================================================== *)

(** X15.  Starting from a store without clients, after any run of calls
    of the service, whatever fails on the way, every stored score is the
    score its client was created with plus the deltas of all match rows
    that reference the client, provided the generator never hands out an
    identifier that match rows already reference. *)
Theorem scores_add_up_from_empty_store (cs : list call) (w : World) :
  clients (tables w) = [] ->
  fresh_ids cs w ->
  forall r, In r (clients (tables (run cs w))) ->
    c_score r = (c_initial r
                 + sum_deltas (c_id r) (client_matches (tables (run cs w))))%Z.
Proof.
  intros Hempty Hfresh.
  apply (score_invariant_run cs w Hfresh).
  intros r Hr. rewrite Hempty in Hr. destruct Hr.
Qed.

Lemma scores_add_up_from_empty_store_witness :
  Forall (fun r =>
            c_score r
            = (c_initial r
               + sum_deltas (c_id r)
                   (client_matches
                      (tables (run [CallNewClient "c1" (Pb.NewClientRequest.mk "ann" 0 10);
                                    CallNewMatch (Pb.NewMatchRequest.mk "c1" 5);
                                    CallNewMatch (Pb.NewMatchRequest.mk "c1" (-2));
                                    CallDeleteClient (Pb.DeleteClientRequest.mk "zz")]
                                   (mkWorld (mkTables [] []) 0 (Unix 0 0)
                                            [false; false; false; true])))))%Z)
         (clients (tables (run [CallNewClient "c1" (Pb.NewClientRequest.mk "ann" 0 10);
                                CallNewMatch (Pb.NewMatchRequest.mk "c1" 5);
                                CallNewMatch (Pb.NewMatchRequest.mk "c1" (-2));
                                CallDeleteClient (Pb.DeleteClientRequest.mk "zz")]
                               (mkWorld (mkTables [] []) 0 (Unix 0 0)
                                        [false; false; false; true])))).
Proof.
  apply Forall_forall.
  apply scores_add_up_from_empty_store.
  - reflexivity.
  - cbn [fresh_ids fresh_id]. repeat split. intros m [].
Defined.

(* ===================================================================== *)
(** ** Further properties: [Sort] *)
(* ===================================================================== *)

Lemma Strings_of_permutation (items items' : list string) :
  Permutation items items' -> Strings items' = Strings items.
Proof.
  intros P. apply Strings_unique; [apply Strings_sorted|].
  eapply Permutation_trans; [exact P | apply Strings_permutation].
Qed.

Lemma Strings_of_sorted (items : list string) :
  StronglySorted le items -> Strings items = items.
Proof.
  intros Hs. symmetry. apply Strings_unique; [assumption|].
  apply Permutation_refl.
Qed.

Lemma collapse_of_strictly_sorted (items : list string) :
  forall pivot, StronglySorted lt (pivot :: items) ->
                collapse pivot items = items.
Proof.
  induction items as [|x items IH]; intros pivot Hs; [reflexivity|].
  apply StronglySorted_inv in Hs as [Hs Hall].
  inversion Hall as [|? ? Hpx _]; subst. cbn [collapse].
  replace (String.eqb x pivot) with false.
  - f_equal. now apply IH.
  - symmetry. apply String.eqb_neq. intros ->. exact (lt_irrefl pivot Hpx).
Qed.

(** X16.  The answer of [Sort] does not depend on the order in which the
    items arrive: two requests whose items are permutations of each
    other get the same answer (or both panic). *)
Theorem Sort_ignores_input_order (items items' : list string) (rd : bool) :
  Permutation items items' ->
  Sort (Pb.SortRequest.mk items' rd) = Sort (Pb.SortRequest.mk items rd).
Proof.
  intros P. unfold Sort. cbn [Pb.SortRequest.Items Pb.SortRequest.RemoveDuplicates].
  now rewrite (Strings_of_permutation items items' P).
Qed.

Lemma Sort_ignores_input_order_witness :
  Sort (Pb.SortRequest.mk ["b"; "a"; "b"] true)
  = Sort (Pb.SortRequest.mk ["a"; "b"; "b"] true).
Proof.
  apply Sort_ignores_input_order.
  apply perm_trans with (l' := ["b"; "a"; "b"]);
    [apply perm_swap | apply Permutation_refl].
Defined.

(** X17.  [Sort] is idempotent: whenever it returns, sorting the returned
    items again with the same flag returns them unchanged. *)
Theorem Sort_is_idempotent (items : list string) (rd : bool) :
  match Sort (Pb.SortRequest.mk items rd) with
  | Returned resp =>
      Sort (Pb.SortRequest.mk (Pb.SortResponse.Items resp) rd) = Returned resp
  | Panicked => True
  end.
Proof.
  unfold Sort. cbn [Pb.SortRequest.Items Pb.SortRequest.RemoveDuplicates].
  destruct rd; cbn [negb].
  - pose proof (Strings_sorted items) as Hs.
    destruct (Strings items) as [|pivot rest]; cbn [index0]; [exact I|].
    change [pivot] with ([] ++ [pivot])%list.
    rewrite (dedup_loop (pivot :: rest) [] pivot).
    cbn [app collapse Pb.SortResponse.Items]. rewrite String.eqb_refl.
    pose proof (collapse_strictly_sorted rest pivot Hs) as Hc.
    rewrite (Strings_of_sorted _ (strictly_sorted_sorted _ Hc)).
    cbn [index0]. change [pivot] with ([] ++ [pivot])%list.
    rewrite (dedup_loop (pivot :: collapse pivot rest) [] pivot).
    cbn [app collapse]. rewrite String.eqb_refl.
    now rewrite (collapse_of_strictly_sorted _ _ Hc).
  - cbn [Pb.SortResponse.Items].
    now rewrite (Strings_of_sorted _ (Strings_sorted items)).
Qed.

(* ===================================================================== *)
(** ** Further properties: [NewClient] and [QueryClients] together *)
(* ===================================================================== *)

(** X18.  A created client is listed: when the round trips go through and
    the identifier is new, [QueryClients] without filters returns, after
    [NewClient], the identifiers it returned before together with the new
    one (in the order of the scores). *)
Theorem NewClient_then_QueryClients
  (id : string) (req : Pb.NewClientRequest.t) (w : World) :
  nth_fault 0 w = false -> nth_fault 1 w = false ->
  (forall r, In r (clients (tables w)) -> c_id r <> id) ->
  exists before after,
    fst (QueryClients (Pb.QueryClientsRequest.mk None None None None None) w)
    = Ok (Pb.QueryClientsResponse.mk before)
    /\ fst (QueryClients (Pb.QueryClientsRequest.mk None None None None None)
              (snd (NewClient id req w)))
       = Ok (Pb.QueryClientsResponse.mk after)
    /\ Permutation (id :: before) after
    /\ ~ In id before.
Proof.
  intros H0 H1 Hfresh.
  assert (Hok : next_ok w).
  { unfold next_ok, nth_fault in *. now destruct (faults w). }
  rewrite (NewClient_spec id req w Hok Hfresh). cbn [snd].
  rewrite !QueryClients_all;
    try assumption; try now apply next_ok_after_round_trip.
  cbn [tables set_tables clients].
  do 2 eexists. split; [reflexivity|]. split; [reflexivity|]. split.
  - set (r := mkClientRow _ _ _ _ _ _).
    change id with (c_id r). rewrite <- (map_cons c_id).
    apply Permutation_map.
    eapply Permutation_trans; [|apply ScoreSort.Permuted_sort].
    eapply Permutation_trans; [|apply Permutation_cons_append].
    constructor. apply Permutation_sym, ScoreSort.Permuted_sort.
  - intros Hin. apply in_map_iff in Hin as (r & Hid & Hr).
    apply (Hfresh r); [|exact Hid].
    eapply Permutation_in;
      [apply Permutation_sym, ScoreSort.Permuted_sort | exact Hr].
Qed.

Lemma NewClient_then_QueryClients_witness :
  exists before after,
    fst (QueryClients (Pb.QueryClientsRequest.mk None None None None None)
           (mkWorld (mkTables [mkClientRow "c1" "ann" None 10 None 10] [])
                    0 (Unix 0 0) []))
    = Ok (Pb.QueryClientsResponse.mk before)
    /\ fst (QueryClients (Pb.QueryClientsRequest.mk None None None None None)
              (snd (NewClient "c2" (Pb.NewClientRequest.mk "bob" 0 30)
                      (mkWorld (mkTables [mkClientRow "c1" "ann" None 10 None 10] [])
                               0 (Unix 0 0) []))))
       = Ok (Pb.QueryClientsResponse.mk after)
    /\ Permutation ("c2" :: before) after
    /\ ~ In "c2" before.
Proof.
  apply (NewClient_then_QueryClients "c2" (Pb.NewClientRequest.mk "bob" 0 30)
           (mkWorld (mkTables [mkClientRow "c1" "ann" None 10 None 10] [])
                    0 (Unix 0 0) [])).
  - reflexivity.
  - reflexivity.
  - intros r [<- | []]. discriminate.
Defined.
